(** * FHELaunchPrice: the contract and the client hook, embedded and verified

    Three parts of the repository are embedded here.

    - [Contract] follows [packages/hardhat/contracts/FHELaunchPrice.sol]:
      three address-keyed mappings, the five external functions and the
      [PriceGuessSubmitted] event.  A function body is a computation over
      the chain state that either finishes or reverts; [transact] wraps a
      body the way the EVM wraps an external call, discarding every write
      of a reverted body.
    - [Hook] follows [packages/nextjs/hooks/useLaunchPrice.ts]: the derived
      values [hasSubmitted] and [valueDecrypted] and the asynchronous
      [submitValue] callback with its [try]/[catch]/[finally].
    - [Regex] and [Component] follow what
      [packages/nextjs/app/_components/FHELaunchPrice.tsx] does with the
      price: the test of the input, the effect on a decrypted value and
      [handleSubmit].

    The FHE library, the wallet layer and the JavaScript runtime are not
    part of the repository; what the code uses of them is taken as a
    parameter. *)

From stdpp Require Import gmap strings list.
From Stdlib Require Import NArith ZArith.
From Stdlib.Strings Require Import Byte.

Set Default Proof Using "Type".

(** ** The contract *)

Module Contract.

(** Solidity value types.  An [address] is a 160-bit number; [euint32] and
    [externalEuint32] are user-defined value types over [bytes32], so a
    handle is a number and the handle of an unset slot is [0]. *)
Definition address : Type := N.
Definition euint32 : Type := N.
Definition externalEuint32 : Type := N.
Definition uint256 : Type := N.
Definition bytes : Type := list byte.

(** [event PriceGuessSubmitted(address indexed participant, uint256 timestamp)] *)
Inductive Event : Type :=
  | PriceGuessSubmitted (participant : address) (timestamp : uint256).

(** The three private state variables.  A Solidity mapping reads as the
    zero value of its value type wherever nothing was written, which is
    what the [default] in the readers below does. *)
Record Storage : Type := mkStorage {
  _encryptedGuesses : gmap address euint32;
  _hasSubmitted : gmap address bool;
  _lastGuessTime : gmap address uint256;
}.

(** What a transaction can observe and change: the contract's own storage,
    the permission set kept by the FHE library (pairs of a ciphertext
    handle and an account allowed on it), and the log of emitted events. *)
Record Chain : Type := mkChain {
  storage : Storage;
  acl : gset (euint32 * address);
  events : list Event;
}.

(** [msg.sender] and [block.timestamp] of the running call. *)
Record Env : Type := mkEnv {
  msg_sender : address;
  block_timestamp : uint256;
}.

Definition genesis : Chain :=
  {| storage := {| _encryptedGuesses := ∅; _hasSubmitted := ∅; _lastGuessTime := ∅ |};
     acl := ∅;
     events := [] |}.

(** *** Reverting computations *)

Inductive Revert : Type :=
  | Error (reason : string)      (* require(cond, reason) *)
  | InvalidInput.                (* FHE.fromExternal refused the proof *)

Inductive Res (A : Type) : Type :=
  | Ok (a : A)
  | Fail (r : Revert).
Arguments Ok {A} a.
Arguments Fail {A} r.

(** A body runs on a chain state and leaves the state it stopped in next
    to its result; a failure stops at the failing statement. *)
Definition Exec (A : Type) : Type := Chain → Res A * Chain.

Definition ret {A} (a : A) : Exec A := λ c, (Ok a, c).

Definition bind {A B} (m : Exec A) (k : A → Exec B) : Exec B :=
  λ c, match m c with
       | (Ok a, c') => k a c'
       | (Fail r, c') => (Fail r, c')
       end.

Definition revert {A} (r : Revert) : Exec A := λ c, (Fail r, c).

Declare Scope exec_scope.
Delimit Scope exec_scope with exec.
Notation "'let*' x ':=' m 'in' k" := (bind m (λ x, k))
  (at level 10, x name, m at level 100, k at level 200,
   format "'[v' 'let*'  x  ':='  m  'in' '/' k ']'") : exec_scope.
Notation "m ;; k" := (bind m (λ _, k))
  (at level 100, k at level 200, right associativity) : exec_scope.

(** An external call either commits the body's final state or, when the
    body reverted, leaves the chain as it was before the call. *)
Definition transact {A} (c : Chain) (m : Exec A) : Res A * Chain :=
  match m c with
  | (Ok a, c') => (Ok a, c')
  | (Fail r, _) => (Fail r, c)
  end.

(** *** Storage access *)

Definition get_storage {A} (f : Storage → A) : Exec A := λ c, (Ok (f (storage c)), c).

Definition put_storage (f : Storage → Storage) : Exec unit :=
  λ c, (Ok tt, {| storage := f (storage c); acl := acl c; events := events c |}).

Definition write_encryptedGuesses (a : address) (v : euint32) : Exec unit :=
  put_storage (λ s, {| _encryptedGuesses := <[a := v]> (_encryptedGuesses s);
                       _hasSubmitted := _hasSubmitted s;
                       _lastGuessTime := _lastGuessTime s |}).

Definition write_hasSubmitted (a : address) (v : bool) : Exec unit :=
  put_storage (λ s, {| _encryptedGuesses := _encryptedGuesses s;
                       _hasSubmitted := <[a := v]> (_hasSubmitted s);
                       _lastGuessTime := _lastGuessTime s |}).

Definition write_lastGuessTime (a : address) (v : uint256) : Exec unit :=
  put_storage (λ s, {| _encryptedGuesses := _encryptedGuesses s;
                       _hasSubmitted := _hasSubmitted s;
                       _lastGuessTime := <[a := v]> (_lastGuessTime s) |}).

Definition read_encryptedGuesses (a : address) : Exec euint32 :=
  get_storage (λ s, default 0%N (_encryptedGuesses s !! a)).

Definition read_hasSubmitted (a : address) : Exec bool :=
  get_storage (λ s, default false (_hasSubmitted s !! a)).

Definition read_lastGuessTime (a : address) : Exec uint256 :=
  get_storage (λ s, default 0%N (_lastGuessTime s !! a)).

Definition emit (e : Event) : Exec unit :=
  λ c, (Ok tt, {| storage := storage c; acl := acl c; events := events c ++ [e] |}).

Definition require (cond : bool) (reason : string) : Exec unit :=
  if cond then ret tt else revert (Error reason).

(** *** The FHE library, as far as the contract uses it *)

(** The input verifier and the plaintext behind a handle belong to the
    external FHE system.  [verifyInput this sender e p] is the handle that
    [FHE.fromExternal(e, p)] returns when called by [sender] on the
    contract at [this], or [None] when it refuses the proof; [cleartext h]
    is the 32-bit value that the ciphertext behind [h] encrypts. *)
Record FHEVM : Type := mkFHEVM {
  verifyInput : address → address → externalEuint32 → bytes → option euint32;
  cleartext : euint32 → N;
}.

Section FHELaunchPrice.

Context (fhe : FHEVM).
(** [address(this)], fixed when the contract is deployed. *)
Context (this : address).

Definition FHE_fromExternal (env : Env) (inputHandle : externalEuint32)
    (inputProof : bytes) : Exec euint32 :=
  match verifyInput fhe this (msg_sender env) inputHandle inputProof with
  | Some h => ret h
  | None => revert InvalidInput
  end.

(** Modelled from the spec: the permission system of the external FHE
    library, which is not part of the repository.  The Permission Set of a
    ciphertext is the set of addresses allowed to request its decryption;
    it is extended by an explicit grant and never shrinks. *)
Definition FHE_allow (value : euint32) (account : address) : Exec unit :=
  λ c, (Ok tt, {| storage := storage c;
                  acl := {[ (value, account) ]} ∪ acl c;
                  events := events c |}).

Definition FHE_allowThis (value : euint32) : Exec unit :=
  FHE_allow value this.

(** Modelled from the spec: the external decryption subsystem reveals the
    plaintext of a ciphertext to an address only when that address is in
    the ciphertext's Permission Set. *)
Definition userDecrypt (c : Chain) (h : euint32) (user : address) : option N :=
  if decide ((h, user) ∈ acl c) then Some (cleartext fhe h) else None.

(** *** The five external functions *)

Local Open Scope exec_scope.

Definition submitPriceGuess (env : Env) (encryptedGuess : externalEuint32)
    (zkProof : bytes) : Exec unit :=
  let* internalEnc := FHE_fromExternal env encryptedGuess zkProof in
  write_encryptedGuesses (msg_sender env) internalEnc ;;
  write_hasSubmitted (msg_sender env) true ;;
  write_lastGuessTime (msg_sender env) (block_timestamp env) ;;
  (let* stored := read_encryptedGuesses (msg_sender env) in
   FHE_allow stored (msg_sender env)) ;;
  (let* stored := read_encryptedGuesses (msg_sender env) in
   FHE_allowThis stored) ;;
  emit (PriceGuessSubmitted (msg_sender env) (block_timestamp env)).

Definition hasSubmitted (user : address) : Exec bool :=
  read_hasSubmitted user.

Definition encryptedGuessOf (user : address) : Exec euint32 :=
  read_encryptedGuesses user.

Definition lastGuessTimestamp (user : address) : Exec uint256 :=
  read_lastGuessTime user.

Definition allowDecryption (env : Env) (grantee : address) : Exec unit :=
  let* submitted := read_hasSubmitted (msg_sender env) in
  require submitted "No guess submitted" ;;
  let* stored := read_encryptedGuesses (msg_sender env) in
  FHE_allow stored grantee.

(** The chain a successful [submitPriceGuess] leaves behind. *)
Definition after_submit (c : Chain) (env : Env) (h : euint32) : Chain :=
  {| storage :=
       {| _encryptedGuesses := <[msg_sender env := h]> (_encryptedGuesses (storage c));
          _hasSubmitted := <[msg_sender env := true]> (_hasSubmitted (storage c));
          _lastGuessTime := <[msg_sender env := block_timestamp env]> (_lastGuessTime (storage c)) |};
     acl := {[ (h, this) ]} ∪ ({[ (h, msg_sender env) ]} ∪ acl c);
     events := events c ++ [PriceGuessSubmitted (msg_sender env) (block_timestamp env)] |}.

(** The chain a successful [allowDecryption] leaves behind. *)
Definition after_allow (c : Chain) (env : Env) (grantee : address) : Chain :=
  {| storage := storage c;
     acl := {[ (default 0%N (_encryptedGuesses (storage c) !! msg_sender env), grantee) ]} ∪ acl c;
     events := events c |}.

(** *** Transactions *)

Inductive Call : Type :=
  | SubmitPriceGuess (encryptedGuess : externalEuint32) (zkProof : bytes)
  | HasSubmitted (user : address)
  | EncryptedGuessOf (user : address)
  | LastGuessTimestamp (user : address)
  | AllowDecryption (grantee : address).

Inductive Value : Type :=
  | VNone
  | VBool (b : bool)
  | VHandle (h : euint32)
  | VUint (n : uint256).

Definition dispatch (env : Env) (call : Call) : Exec Value :=
  match call with
  | SubmitPriceGuess e p => submitPriceGuess env e p ;; ret VNone
  | HasSubmitted user => let* b := hasSubmitted user in ret (VBool b)
  | EncryptedGuessOf user => let* h := encryptedGuessOf user in ret (VHandle h)
  | LastGuessTimestamp user => let* n := lastGuessTimestamp user in ret (VUint n)
  | AllowDecryption grantee => allowDecryption env grantee ;; ret VNone
  end.

(** What the caller gets back from a call, and the chain after it. *)
Definition receipt (c : Chain) (tx : Env * Call) : Res Value :=
  fst (transact c (dispatch tx.1 tx.2)).

Definition step (c : Chain) (tx : Env * Call) : Chain :=
  snd (transact c (dispatch tx.1 tx.2)).

Definition run (c : Chain) (txs : list (Env * Call)) : Chain :=
  foldl step c txs.

(** A successful [submitPriceGuess] sent by [a]. *)
Definition submits (a : address) (c : Chain) (tx : Env * Call) : Prop :=
  msg_sender tx.1 = a ∧
  ∃ e p, tx.2 = SubmitPriceGuess e p ∧ receipt c tx = Ok VNone.

(** Reading a view function off a chain state. *)
Definition view {A} (m : Exec A) (c : Chain) : Res A := fst (transact c m).

(** Two chain states that agree on everything but [_lastGuessTime]. *)
Definition differ_only_in_lastGuessTime (c1 c2 : Chain) : Prop :=
  _encryptedGuesses (storage c1) = _encryptedGuesses (storage c2) ∧
  _hasSubmitted (storage c1) = _hasSubmitted (storage c2) ∧
  acl c1 = acl c2 ∧
  events c1 = events c2.

(** [(e, p)] is an encrypted input of the value [v] made by [a] for this
    contract: the verifier accepts it and the handle it yields encrypts
    [v]. *)
Definition encrypts (a : address) (e : externalEuint32) (p : bytes) (v : N) : Prop :=
  ∃ h, verifyInput fhe this a e p = Some h ∧ cleartext fhe h = v.

(** *** Reading a chain and a transaction sequence *)

(** The Guess Record of [a]: flag, stored handle, time of the last guess. *)
Definition guessRecord (c : Chain) (a : address) : bool * euint32 * uint256 :=
  (default false (_hasSubmitted (storage c) !! a),
   default 0%N (_encryptedGuesses (storage c) !! a),
   default 0%N (_lastGuessTime (storage c) !! a)).

(** The handle and block time that [tx] submits for [a]: [tx] is a
    [submitPriceGuess] sent by [a] and accepted by the verifier. *)
Definition submission_of (a : address) (tx : Env * Call) : option (euint32 * uint256) :=
  match tx.2 with
  | SubmitPriceGuess e p =>
      if decide (msg_sender tx.1 = a)
      then (λ h, (h, block_timestamp tx.1)) <$> verifyInput fhe this a e p
      else None
  | _ => None
  end.

Definition last_submission (a : address) (txs : list (Env * Call))
    : option (euint32 * uint256) :=
  last (omap (submission_of a) txs).

(** The event that [tx] emits, if any. *)
Definition event_of (tx : Env * Call) : option Event :=
  match tx.2 with
  | SubmitPriceGuess e p =>
      (λ _, PriceGuessSubmitted (msg_sender tx.1) (block_timestamp tx.1))
        <$> verifyInput fhe this (msg_sender tx.1) e p
  | _ => None
  end.

(** The timestamp of the last event of [a] in an event log. *)
Definition event_time_of (a : address) (ev : Event) : option uint256 :=
  match ev with
  | PriceGuessSubmitted participant timestamp =>
      if decide (participant = a) then Some timestamp else None
  end.

Definition last_event_time (a : address) (evs : list Event) : option uint256 :=
  last (omap (event_time_of a) evs).

End FHELaunchPrice.

End Contract.

(** ** The client hook *)

Module Hook.

(** *** JavaScript values the hook handles *)

(** A thrown value, by what the [catch] of the hook can make of it: an
    [Error] instance whose [message] goes into a template literal as the
    given string; any other value, of which [String(err)] is the given
    string; or a value that cannot be turned into a string at all (an
    [Error] whose [message] is a symbol, an object without [toString] or
    with one that throws), where the attempt throws in its turn. *)
Inductive Thrown : Type :=
  | ErrorObject (message : string)
  | OtherValue (asString : string)
  | Unprintable (thrown : Thrown).

Inductive Outcome (A : Type) : Type :=
  | Returned (a : A)
  | Threw (err : Thrown).
Arguments Returned {A} a.
Arguments Threw {A} err.

(** [`${err instanceof Error ? err.message : String(err)}`] *)
Definition describe (err : Thrown) : Outcome string :=
  match err with
  | ErrorObject message => Returned message
  | OtherValue asString => Returned asString
  | Unprintable thrown => Threw thrown
  end.

(** Truthiness of a [string | undefined]: [undefined] and the empty string
    are falsy. *)
Definition truthy (s : option string) : bool :=
  match s with
  | None => false
  | Some s => negb (bool_decide (s = ""))
  end.

(** [ethers.ZeroHash]: ["0x"] followed by sixty-four zeros. *)
Definition ZeroHash : string :=
  "0x0000000000000000000000000000000000000000000000000000000000000000".

(** A decrypted value in [results]: [string | bigint | boolean]. *)
Inductive ClearValue : Type :=
  | CBigInt (n : Z)
  | CBool (b : bool)
  | CString (s : string).

(** *** Derived values *)

(** [!encryptedHandle] holds for [undefined] and for the empty string. *)
Definition hasSubmitted (encryptedHandle : option string) : bool :=
  match encryptedHandle with
  | None => false
  | Some h =>
      if bool_decide (h = "") then false
      else bool_decide (h ≠ ZeroHash) && bool_decide (h ≠ "0x0")
  end.

Section Decrypted.

(** [BigInt(s)] on a string parses it or throws a [SyntaxError]; the
    parser belongs to the JavaScript runtime. *)
Context (StringToBigInt : string → Outcome Z).

Definition BigInt (val : ClearValue) : Outcome Z :=
  match val with
  | CBigInt n => Returned n
  | CBool b => Returned (if b then 1%Z else 0%Z)
  | CString s => StringToBigInt s
  end.

(** [results[encryptedHandle]] for a handle that is a hexadecimal string:
    an own property of the results object or [undefined]. *)
Definition valueDecrypted (encryptedHandle : option string)
    (results : option (gmap string ClearValue)) : Outcome bool :=
  match encryptedHandle, results with
  | Some h, Some results =>
      if bool_decide (h = "") then Returned false
      else match results !! h with
           | None => Returned false
           | Some val =>
               match BigInt val with
               | Returned n => Returned (bool_decide (n ≠ 0%Z))
               | Threw err => Threw err
               end
           end
  | _, _ => Returned false
  end.

End Decrypted.

(** An entry of the decryption request. *)
Record DecryptRequest : Type := mkDecryptRequest {
  handle : string;
  contractAddress : string;
}.

(** [decryptParams], with [contractInfo?.address] as its third input. *)
Definition decryptParams (encryptedHandle : option string)
    (infoAddress : option string) : option (list DecryptRequest) :=
  if negb (hasSubmitted encryptedHandle) || negb (truthy encryptedHandle)
     || negb (truthy infoAddress)
  then None
  else match encryptedHandle, infoAddress with
       | Some h, Some a => Some [ {| handle := h; contractAddress := a |} ]
       | _, _ => None
       end.

(** [clearValue]: the pair of the handle and the value found under it. *)
Definition clearValue (encryptedHandle : option string)
    (results : option (gmap string ClearValue)) : option (string * ClearValue) :=
  match encryptedHandle, results with
  | Some h, Some results =>
      if bool_decide (h = "") then None
      else match results !! h with
           | None => None
           | Some val => Some (h, val)
           end
  | _, _ => None
  end.

(** *** The submit callback *)

(** A call of the callback to one of its collaborators. *)
Inductive ExtCall {number Encrypted Params Tx : Type} : Type :=
  | CallEncryptWith (amount : number)
  | CallNewContract
  | CallBuildParams (encrypted : Encrypted)
  | CallSubmitPriceGuess (params : Params) (gasLimit : N)
  | CallWait (tx : Tx)
  | CallReloadValue.
Arguments ExtCall : clear implicits.

Section SubmitValue.

Context {number Abi Runner Encrypted Params WriteContract Tx : Type}.

Record ContractInfo : Type := mkContractInfo {
  address : string;
  abi : option Abi;
}.

(** What the callback closes over: the values of the render that made
    it.  [renderedBusy] is the [busy] of that render, the value the cell
    had when the render ran and not the value it has when the callback
    runs; the rest comes from the wallet and deployment hooks. *)
Record Inputs : Type := mkInputs {
  renderedBusy : bool;
  accounts : option (list string);
  contractInfo : option ContractInfo;
  ethersSigner : option Runner;
  ethersReadonlyProvider : option Runner;
}.

(** The two [useState] cells of the hook; the calls the callback has
    made to its collaborators, oldest first; and, for each [await] at
    which the callback was suspended, what a render of the hook during
    that suspension returns of the two cells: their values with the
    updates made so far. *)
Record State : Type := mkState {
  busy : bool;
  status : string;
  calls : list (ExtCall number Encrypted Params Tx);
  shown : list (bool * string);
}.

(** The collaborators, each of which returns or throws: the encryption
    hook, the ethers contract object and its transaction, the ABI helper
    and the refetch of the stored handle.  [showNumber] is the string a
    template literal makes of a JavaScript number. *)
Record Externals : Type := mkExternals {
  showNumber : number → string;
  encryptWith : number → Outcome (option Encrypted);
  newContract : string → option Abi → Runner → Outcome WriteContract;
  buildParamsFromAbi : Encrypted → option Abi → string → Outcome Params;
  sendSubmitPriceGuess : WriteContract → Params → N → Outcome Tx;
  wait : Tx → Outcome unit;
  reloadValue : Outcome unit;
}.

(** An asynchronous function body, run on its own from its call to the
    settling of its promise: it changes the hook state and returns or
    throws; the state it stopped in stays next to its outcome. *)
Definition Async (A : Type) : Type := State → Outcome A * State.

Definition ret {A} (a : A) : Async A := λ s, (Returned a, s).

Definition bind {A B} (m : Async A) (k : A → Async B) : Async B :=
  λ s, match m s with
       | (Returned a, s') => k a s'
       | (Threw err, s') => (Threw err, s')
       end.

Definition throw {A} (err : Thrown) : Async A := λ s, (Threw err, s).

(** [try { m } catch (err) { handler err }] *)
Definition try_catch {A} (m : Async A) (handler : Thrown → Async A) : Async A :=
  λ s, match m s with
       | (Returned a, s') => (Returned a, s')
       | (Threw err, s') => handler err s'
       end.

(** [try { m } finally { cleanup }]: the cleanup runs either way, and the
    outcome of [m] stands unless the cleanup itself throws. *)
Definition try_finally {A} (m : Async A) (cleanup : Async unit) : Async A :=
  λ s, match m s with
       | (r, s') =>
           match cleanup s' with
           | (Returned _, s'') => (r, s'')
           | (Threw err, s'') => (Threw err, s'')
           end
       end.

Definition setBusy (b : bool) : Async unit :=
  λ s, (Returned tt,
        {| busy := b; status := status s; calls := calls s; shown := shown s |}).

Definition setStatus (text : string) : Async unit :=
  λ s, (Returned tt,
        {| busy := busy s; status := text; calls := calls s; shown := shown s |}).

(** The outcome of an expression that changes nothing. *)
Definition settle {A} (outcome : Outcome A) : Async A := λ s, (outcome, s).

(** A call to a collaborator: it is recorded, then its outcome is the
    outcome of the call. *)
Definition call {A} (what : ExtCall number Encrypted Params Tx)
    (outcome : Outcome A) : Async A :=
  λ s, (outcome,
        {| busy := busy s; status := status s; calls := calls s ++ [what];
           shown := shown s |}).

(** [await] of a call to a collaborator: the call is recorded, the
    callback is suspended, a render during the suspension sees the two
    cells as they are, then the outcome of the call is the outcome of the
    [await]. *)
Definition await {A} (what : ExtCall number Encrypted Params Tx)
    (outcome : Outcome A) : Async A :=
  λ s, (outcome,
        {| busy := busy s; status := status s; calls := calls s ++ [what];
           shown := shown s ++ [(busy s, status s)] |}).

Declare Scope async_scope.
Delimit Scope async_scope with async.
Notation "'let*' x ':=' m 'in' k" := (bind m (λ x, k))
  (at level 10, x name, m at level 100, k at level 200,
   format "'[v' 'let*'  x  ':='  m  'in' '/' k ']'") : async_scope.
Notation "m ;; k" := (bind m (λ _, k))
  (at level 100, k at level 200, right associativity) : async_scope.
Local Open Scope async_scope.

(** [Boolean(contractInfo?.address && contractInfo?.abi)] *)
Definition hasContract (inputs : Inputs) : bool :=
  match contractInfo inputs with
  | None => false
  | Some info => truthy (Some (address info)) && bool_decide (is_Some (abi info))
  end.

Inductive Mode : Type := ModeRead | ModeWrite.

Definition getContract (inputs : Inputs) (ext : Externals) (mode : Mode)
    : Async (option WriteContract) :=
  if negb (hasContract inputs) then ret None
  else
    let providerOrSigner :=
      match mode with
      | ModeRead => ethersReadonlyProvider inputs
      | ModeWrite => ethersSigner inputs
      end in
    match providerOrSigner, contractInfo inputs with
    | Some runner, Some info =>
        let* c := call CallNewContract (newContract ext (address info) (abi info) runner) in
        ret (Some c)
    | _, _ => ret None
    end.

(** [busy || !accounts?.[0] || !hasContract], on the values the callback
    closes over. *)
Definition guard (inputs : Inputs) : bool :=
  renderedBusy inputs || negb (truthy (accounts inputs ≫= head))
  || negb (hasContract inputs).

(** The callback of a render that shows the state [s]: it closes over the
    [busy] of [s]. *)
Definition rendered (inputs : Inputs) (s : State) : Inputs :=
  {| renderedBusy := busy s;
     accounts := accounts inputs;
     contractInfo := contractInfo inputs;
     ethersSigner := ethersSigner inputs;
     ethersReadonlyProvider := ethersReadonlyProvider inputs |}.

(** The body of the [try] block. *)
Definition submitValue_try (inputs : Inputs) (ext : Externals)
    (label : string) (amount : number) : Async unit :=
  let* encrypted := await (CallEncryptWith amount) (encryptWith ext amount) in
  match encrypted with
  | None => throw (ErrorObject "Encryption failed")
  | Some encrypted =>
      let* writeContract := getContract inputs ext ModeWrite in
      match writeContract with
      | None => throw (ErrorObject "Contract signer missing")
      | Some writeContract =>
          let* params :=
            call (CallBuildParams encrypted)
                 (buildParamsFromAbi ext encrypted
                    (contractInfo inputs ≫= abi) "submitPriceGuess") in
          let* tx :=
            await (CallSubmitPriceGuess params 300000)
                  (sendSubmitPriceGuess ext writeContract params 300000) in
          setStatus "Waiting for blockchain confirmation..." ;;
          await (CallWait tx) (wait ext tx) ;;
          setStatus ("Value submitted for " +:+ label) ;;
          await CallReloadValue (reloadValue ext)
      end
  end.

Definition submitValue (inputs : Inputs) (ext : Externals)
    (label : string) (amount : number) : Async unit :=
  λ s,
    if guard inputs then ret tt s
    else
      (setBusy true ;;
       setStatus ("Encrypting " +:+ showNumber ext amount +:+ " for " +:+ label +:+ "...") ;;
       try_finally
         (try_catch
            (submitValue_try inputs ext label amount)
            (λ err,
               let* text := settle (describe err) in
               setStatus ("Submission error: " +:+ text)))
         (setBusy false)) s.



End SubmitValue.

End Hook.

(** ** The page *)

(** Regular expressions over characters, matched by derivatives.  The
    page tests its input against [/^\d*\.?\d*$/]; between [^] and [$] a
    test is a match of the whole string. *)
Module Regex.

Import Stdlib.Strings.Ascii.

Inductive regex : Type :=
  | Void
  | Eps
  | Class (member : ascii → bool)
  | Seq (r1 r2 : regex)
  | Alt (r1 r2 : regex)
  | Star (r : regex).

(** [r?] *)
Definition Opt (r : regex) : regex := Alt r Eps.

(** The strings a regular expression denotes. *)
Inductive Matches : regex → string → Prop :=
  | MEps : Matches Eps ""
  | MClass member c : member c = true → Matches (Class member) (String c "")
  | MSeq r1 r2 s1 s2 :
      Matches r1 s1 → Matches r2 s2 → Matches (Seq r1 r2) (s1 +:+ s2)
  | MAltL r1 r2 s : Matches r1 s → Matches (Alt r1 r2) s
  | MAltR r1 r2 s : Matches r2 s → Matches (Alt r1 r2) s
  | MStarEmpty r : Matches (Star r) ""
  | MStarMore r s1 s2 :
      Matches r s1 → Matches (Star r) s2 → Matches (Star r) (s1 +:+ s2).

Fixpoint nullable (r : regex) : bool :=
  match r with
  | Void => false
  | Eps => true
  | Class _ => false
  | Seq r1 r2 => nullable r1 && nullable r2
  | Alt r1 r2 => nullable r1 || nullable r2
  | Star _ => true
  end.

Fixpoint deriv (c : ascii) (r : regex) : regex :=
  match r with
  | Void => Void
  | Eps => Void
  | Class member => if member c then Eps else Void
  | Seq r1 r2 =>
      if nullable r1
      then Alt (Seq (deriv c r1) r2) (deriv c r2)
      else Seq (deriv c r1) r2
  | Alt r1 r2 => Alt (deriv c r1) (deriv c r2)
  | Star r => Seq (deriv c r) (Star r)
  end.

(** [/^r$/.test(s)] *)
Fixpoint test (r : regex) (s : string) : bool :=
  match s with
  | EmptyString => nullable r
  | String c s => test (deriv c r) s
  end.

(** [\d] *)
Definition isDigit (c : ascii) : bool :=
  match c with
  | "0" | "1" | "2" | "3" | "4" | "5" | "6" | "7" | "8" | "9" => true
  | _ => false
  end%char.

(** [\.] *)
Definition isDot (c : ascii) : bool :=
  match c with
  | "." => true
  | _ => false
  end%char.

(** [\d*\.?\d*] *)
Definition priceRegex : regex :=
  Seq (Star (Class isDigit)) (Seq (Opt (Class isDot)) (Star (Class isDigit))).

Fixpoint allDigits (s : string) : bool :=
  match s with
  | EmptyString => true
  | String c s => isDigit c && allDigits s
  end.

(** Every character is a digit or a dot. *)
Fixpoint allPriceChars (s : string) : bool :=
  match s with
  | EmptyString => true
  | String c s => (isDigit c || isDot c) && allPriceChars s
  end.

Fixpoint countDots (s : string) : nat :=
  match s with
  | EmptyString => 0
  | String c s => (if isDot c then 1 else 0) + countDots s
  end.

End Regex.

(** The part of [FHELaunchPrice.tsx] that decides what is submitted: the
    input's [onChange], the effect that takes over a decrypted value, and
    [handleSubmit]. *)
Module Component.

Import Hook.

Section Page.

Context {number Abi Runner Encrypted Params WriteContract Tx : Type}.

(** What the page uses of JavaScript numbers: the truth value of a
    number (false for zero and [NaN]), [Number] of a string and [Number]
    of what the hook returns as [clearValue]. *)
Record Numbers : Type := mkNumbers {
  toBoolean : number → bool;
  NumberOfString : string → number;
  NumberOfClear : option ClearValue → number;
}.

(** The two [useState] cells of the page, the state of the hook it uses,
    and what it has written with [console.error]. *)
Record Page : Type := mkPage {
  predictedPrice : option number;
  submittedPrice : option number;
  launchPrice : @Hook.State number Encrypted Params Tx;
  console : list Thrown;
}.

(** [onChange] of the price input. *)
Definition onChange (num : Numbers) (value : string) (p : Page) : Page :=
  {| predictedPrice :=
       if Regex.test Regex.priceRegex value
       then Some (NumberOfString num value)
       else None;
     submittedPrice := submittedPrice p;
     launchPrice := launchPrice p;
     console := console p |}.

(** Truthiness of [launchPrice.clearValue]. *)
Definition truthyClear (clearValue : option ClearValue) : bool :=
  match clearValue with
  | None => false
  | Some (CBigInt n) => bool_decide (n ≠ 0%Z)
  | Some (CBool b) => b
  | Some (CString s) => negb (bool_decide (s = ""))
  end.

(** The effect on [launchPrice.valueDecrypted] and [launchPrice.clearValue]. *)
Definition onDecrypted (num : Numbers) (valueDecrypted : bool)
    (clearValue : option ClearValue) (p : Page) : Page :=
  if valueDecrypted && truthyClear clearValue then
    let val := NumberOfClear num clearValue in
    {| predictedPrice := Some val;
       submittedPrice := Some val;
       launchPrice := launchPrice p;
       console := console p |}
  else p.

(** [!predictedPrice] on a [number | null]. *)
Definition noPrice (num : Numbers) (price : option number) : bool :=
  match price with
  | None => true
  | Some n => negb (toBoolean num n)
  end.

(** [launchPrice.busy] and [launchPrice.submitValue] are what the hook
    returned to the render of the page, so the callback closes over the
    [busy] that the page shows. *)
Definition handleSubmit (num : Numbers) (inputs : @Hook.Inputs Abi Runner)
    (ext : @Hook.Externals number Abi Runner Encrypted Params WriteContract Tx)
    (isDecrypting : bool) (p : Page) : Outcome unit * Page :=
  if noPrice num (predictedPrice p) || busy (launchPrice p) || isDecrypting
  then (Returned tt, p)
  else match predictedPrice p with
       | None => (Returned tt, p)
       | Some price =>
           match submitValue (rendered inputs (launchPrice p)) ext
                   "ZamaLaunch" price (launchPrice p) with
           | (Returned _, hook) =>
               (Returned tt, {| predictedPrice := predictedPrice p;
                                submittedPrice := Some price;
                                launchPrice := hook;
                                console := console p |})
           | (Threw err, hook) =>
               (Returned tt, {| predictedPrice := predictedPrice p;
                                submittedPrice := submittedPrice p;
                                launchPrice := hook;
                                console := console p ++ [err] |})
           end
       end.

End Page.

End Component.

(** ** Concrete instances *)

(** A small world to run the definitions in, after the mock of the
    repository's tests: an input is accepted when it comes with a
    non-empty proof, and the handle it yields is the value itself. *)
Module Examples.

Import Contract.
Local Open Scope N_scope.

Definition mock_fhe : FHEVM :=
  {| verifyInput := λ _ _ e p, match p with [] => None | _ => Some e end;
     cleartext := λ h, h |}.

Definition launchPrice : address := 100%N.
Definition charlie : address := 1%N.
Definition dana : address := 2%N.

Definition proof : bytes := [x01].

Definition charlie_at (t : uint256) : Env :=
  {| msg_sender := charlie; block_timestamp := t |}.

Definition dana_at (t : uint256) : Env :=
  {| msg_sender := dana; block_timestamp := t |}.

(** The chain after charlie's first guess, and the same chain with
    another time recorded for it. *)
Definition guessed : Chain :=
  step mock_fhe launchPrice genesis (charlie_at 10, SubmitPriceGuess 2500 proof).

Definition guessed_later : Chain :=
  {| storage :=
       {| _encryptedGuesses := _encryptedGuesses (storage guessed);
          _hasSubmitted := _hasSubmitted (storage guessed);
          _lastGuessTime := <[charlie := 99]> (_lastGuessTime (storage guessed)) |};
     acl := acl guessed;
     events := events guessed |}.

(** A session with a wallet and a deployed contract, and one without a
    wallet. *)
Definition connected : @Hook.Inputs unit string :=
  {| Hook.renderedBusy := false;
     Hook.accounts := Some ["0x70997970C51812dc3A010C7d01b50e0d17dc79C8"];
     Hook.contractInfo :=
       Some {| Hook.address := "0x5FbDB2315678afecb367f032d93F642f64180aa3";
               Hook.abi := Some tt |};
     Hook.ethersSigner := Some "signer";
     Hook.ethersReadonlyProvider := Some "provider" |}.


(** Collaborators that all work, except that the wallet rejects the
    transaction. *)
Definition rejecting : @Hook.Externals N unit string N N unit N :=
  {| Hook.showNumber := λ _, "2500";
     Hook.encryptWith := λ n, Hook.Returned (Some n);
     Hook.newContract := λ _ _ _, Hook.Returned tt;
     Hook.buildParamsFromAbi := λ e _ _, Hook.Returned e;
     Hook.sendSubmitPriceGuess :=
       λ _ _ _, Hook.Threw (Hook.ErrorObject "user rejected action");
     Hook.wait := λ _, Hook.Returned tt;
     Hook.reloadValue := Hook.Returned tt |}.

(** The hook at rest, and in the middle of a submission. *)
Definition idle : @Hook.State N N N N :=
  {| Hook.busy := false; Hook.status := ""; Hook.calls := []; Hook.shown := [] |}.


(** The results of the examples hold bigints only, so a parser that
    refuses every string will do. *)
Definition parse_nothing (s : string) : Hook.Outcome Z :=
  Hook.Threw (Hook.ErrorObject "SyntaxError").

Definition handle_2500 : string :=
  "0x4a1f0c4ad2b30f4b6d3c7a6e5f0b9c8d7e6f5a4b3c2d1e0f000000000000a400".

(** A verifier like the mock, whose handles are never zero. *)
Definition nonzero_fhe : FHEVM :=
  {| verifyInput := λ _ _ e p, match p with [] => None | _ => Some (N.succ e) end;
     cleartext := N.pred |}.

(** A rendering of handles as 66-character strings that keeps zero for
    the zero handle. *)
Definition show_handle (h : euint32) : string :=
  if decide (h = 0) then Hook.ZeroHash else handle_2500.


(** Collaborators that all work. *)
Definition working : @Hook.Externals N unit string N N unit N :=
  {| Hook.showNumber := λ _, "2500";
     Hook.encryptWith := λ n, Hook.Returned (Some n);
     Hook.newContract := λ _ _ _, Hook.Returned tt;
     Hook.buildParamsFromAbi := λ e _ _, Hook.Returned e;
     Hook.sendSubmitPriceGuess := λ _ p _, Hook.Returned p;
     Hook.wait := λ _, Hook.Returned tt;
     Hook.reloadValue := Hook.Returned tt |}.

(** A runtime whose [BigInt] turns the empty string into zero. *)
Definition parse_empty (s : string) : Hook.Outcome Z :=
  match s with
  | EmptyString => Hook.Returned 0%Z
  | _ => Hook.Threw (Hook.ErrorObject "SyntaxError")
  end.

(** Numbers as naturals: zero is the only false one. *)
Definition naturals : @Component.Numbers N :=
  {| Component.toBoolean := λ n, negb (n =? 0)%N;
     Component.NumberOfString := λ _, 0%N;
     Component.NumberOfClear :=
       λ v, match v with
            | Some (Hook.CBigInt n) => Z.to_N n
            | _ => 0%N
            end |}.

(** A page with 2500 typed in, nothing submitted yet. *)
Definition typed : @Component.Page N N N N :=
  {| Component.predictedPrice := Some 2500%N;
     Component.submittedPrice := None;
     Component.launchPrice := idle;
     Component.console := [] |}.

End Examples.

(** * Properties of the contract *)

Section ContractFacts.

Import Contract.
Context (fhe : FHEVM) (this : address).

Implicit Types (c : Chain) (env : Env) (a user grantee : address).

Lemma submitPriceGuess_body c env e p :
  submitPriceGuess fhe this env e p c =
    match verifyInput fhe this (msg_sender env) e p with
    | Some h => (Ok tt, after_submit this c env h)
    | None => (Fail InvalidInput, c)
    end.
Proof.
  unfold submitPriceGuess, FHE_fromExternal, bind at 1.
  destruct (verifyInput fhe this (msg_sender env) e p) as [h|]; [|reflexivity].
  unfold after_submit, bind, ret, write_encryptedGuesses, write_hasSubmitted,
    write_lastGuessTime, read_encryptedGuesses, put_storage, get_storage,
    FHE_allowThis, FHE_allow, emit; simpl.
  rewrite lookup_insert_eq; reflexivity.
Qed.

Lemma allowDecryption_body c env grantee :
  allowDecryption env grantee c =
    if default false (_hasSubmitted (storage c) !! msg_sender env)
    then (Ok tt, after_allow c env grantee)
    else (Fail (Error "No guess submitted"), c).
Proof.
  unfold allowDecryption, bind, read_hasSubmitted, read_encryptedGuesses,
    get_storage, require, FHE_allow, after_allow; simpl.
  destruct (default false (_hasSubmitted (storage c) !! msg_sender env)); reflexivity.
Qed.

Lemma transact_ok {A} c (m : Exec A) x c' :
  m c = (Ok x, c') → transact c m = (Ok x, c').
Proof. unfold transact; intros ->; reflexivity. Qed.

Lemma transact_fail {A} c (m : Exec A) r c' :
  m c = (Fail r, c') → transact c m = (Fail r, c).
Proof. unfold transact; intros ->; reflexivity. Qed.

Lemma view_hasSubmitted c user :
  view (hasSubmitted user) c = Ok (default false (_hasSubmitted (storage c) !! user)).
Proof. reflexivity. Qed.

Lemma view_encryptedGuessOf c user :
  view (encryptedGuessOf user) c = Ok (default 0%N (_encryptedGuesses (storage c) !! user)).
Proof. reflexivity. Qed.

Lemma view_lastGuessTimestamp c user :
  view (lastGuessTimestamp user) c = Ok (default 0%N (_lastGuessTime (storage c) !! user)).
Proof. reflexivity. Qed.

(** C1.  When the verifier accepts [(encryptedGuess, zkProof)] from the
    caller, [submitPriceGuess] succeeds, and in the chain it leaves: the
    caller's stored handle is the verified handle, the caller's
    [hasSubmitted] flag is true, the caller's [lastGuessTimestamp] is the
    block time, the caller and the contract itself are in the permission
    set of the stored handle, and the event log has grown by exactly one
    [PriceGuessSubmitted] with the caller's address and that block time. *)
Theorem submitPriceGuess_success c env e p h :
  verifyInput fhe this (msg_sender env) e p = Some h →
  ∃ c', transact c (submitPriceGuess fhe this env e p) = (Ok tt, c') ∧
        view (encryptedGuessOf (msg_sender env)) c' = Ok h ∧
        view (hasSubmitted (msg_sender env)) c' = Ok true ∧
        view (lastGuessTimestamp (msg_sender env)) c' = Ok (block_timestamp env) ∧
        (h, msg_sender env) ∈ acl c' ∧
        (h, this) ∈ acl c' ∧
        events c' =
          events c ++ [PriceGuessSubmitted (msg_sender env) (block_timestamp env)].
Proof.
  intros Hv. exists (after_submit this c env h). split.
  - apply transact_ok. rewrite submitPriceGuess_body, Hv. reflexivity.
  - rewrite view_encryptedGuessOf, view_hasSubmitted, view_lastGuessTimestamp.
    unfold after_submit; simpl. rewrite !lookup_insert_eq; simpl.
    repeat split; set_solver.
Qed.

(** C2.  [allowDecryption] called by an address whose [hasSubmitted] flag
    is false reverts with the reason string of the [require] and leaves
    the chain, including the permission set, exactly as it was, already at
    the point where the body stops; called by an address whose flag is
    true it succeeds and adds the grantee to the permission set of the
    caller's stored handle, changing nothing else. *)
Theorem allowDecryption_requires_submission c env grantee :
  (view (hasSubmitted (msg_sender env)) c = Ok false →
     allowDecryption env grantee c = (Fail (Error "No guess submitted"), c) ∧
     transact c (allowDecryption env grantee) = (Fail (Error "No guess submitted"), c)) ∧
  (view (hasSubmitted (msg_sender env)) c = Ok true →
     ∃ c' h, transact c (allowDecryption env grantee) = (Ok tt, c') ∧
             view (encryptedGuessOf (msg_sender env)) c = Ok h ∧
             acl c' = {[ (h, grantee) ]} ∪ acl c ∧
             storage c' = storage c ∧
             events c' = events c).
Proof.
  rewrite view_hasSubmitted. split; intros [= Hs].
  - assert (allowDecryption env grantee c = (Fail (Error "No guess submitted"), c)) as Hb
      by (rewrite allowDecryption_body, Hs; reflexivity).
    split; [exact Hb|]. eapply transact_fail, Hb.
  - exists (after_allow c env grantee), (default 0%N (_encryptedGuesses (storage c) !! msg_sender env)).
    split; [|by rewrite view_encryptedGuessOf].
    apply transact_ok. rewrite allowDecryption_body, Hs. reflexivity.
Qed.

(** C5.  When the verifier refuses the proof, [submitPriceGuess] reverts:
    the body stops before its first write, so the chain it stops in, and
    the chain after the call, is the chain before the call, with all
    three mappings, the permission set and the event log unchanged. *)
Theorem submitPriceGuess_invalid_proof_atomic c env e p :
  verifyInput fhe this (msg_sender env) e p = None →
  submitPriceGuess fhe this env e p c = (Fail InvalidInput, c) ∧
  transact c (submitPriceGuess fhe this env e p) = (Fail InvalidInput, c) ∧
  step fhe this c (env, SubmitPriceGuess e p) = c.
Proof.
  intros Hv.
  assert (submitPriceGuess fhe this env e p c = (Fail InvalidInput, c)) as Hb
    by (rewrite submitPriceGuess_body, Hv; reflexivity).
  split; [exact Hb|]. split; [eapply transact_fail, Hb|].
  unfold step, transact, dispatch, bind; simpl. rewrite Hb. reflexivity.
Qed.

(** What one transaction does to the chain, call by call. *)
Lemma step_submit c env e p :
  step fhe this c (env, SubmitPriceGuess e p) =
    match verifyInput fhe this (msg_sender env) e p with
    | Some h => after_submit this c env h
    | None => c
    end.
Proof.
  unfold step, transact, dispatch, bind; simpl. rewrite submitPriceGuess_body.
  destruct (verifyInput fhe this (msg_sender env) e p); reflexivity.
Qed.

Lemma receipt_submit c env e p :
  receipt fhe this c (env, SubmitPriceGuess e p) =
    match verifyInput fhe this (msg_sender env) e p with
    | Some _ => Ok VNone
    | None => Fail InvalidInput
    end.
Proof.
  unfold receipt, transact, dispatch, bind; simpl. rewrite submitPriceGuess_body.
  destruct (verifyInput fhe this (msg_sender env) e p); reflexivity.
Qed.

Lemma step_allow c env grantee :
  step fhe this c (env, AllowDecryption grantee) =
    if default false (_hasSubmitted (storage c) !! msg_sender env)
    then after_allow c env grantee else c.
Proof.
  unfold step, transact, dispatch, bind; simpl. rewrite allowDecryption_body.
  destruct (default false (_hasSubmitted (storage c) !! msg_sender env)); reflexivity.
Qed.

Lemma receipt_allow c env grantee :
  receipt fhe this c (env, AllowDecryption grantee) =
    if default false (_hasSubmitted (storage c) !! msg_sender env)
    then Ok VNone else Fail (Error "No guess submitted").
Proof.
  unfold receipt, transact, dispatch, bind; simpl. rewrite allowDecryption_body.
  destruct (default false (_hasSubmitted (storage c) !! msg_sender env)); reflexivity.
Qed.

Lemma submits_iff a c env call :
  submits fhe this a c (env, call) ↔
    msg_sender env = a ∧
    ∃ e p, call = SubmitPriceGuess e p ∧
           is_Some (verifyInput fhe this (msg_sender env) e p).
Proof.
  unfold submits; simpl. split.
  - intros [Ha (e & p & -> & Hr)]. split; [exact Ha|]. exists e, p. split; [reflexivity|].
    rewrite receipt_submit in Hr.
    destruct (verifyInput fhe this (msg_sender env) e p); [eauto|discriminate].
  - intros [Ha (e & p & -> & [h Hh])]. split; [exact Ha|]. exists e, p. split; [reflexivity|].
    rewrite receipt_submit, Hh. reflexivity.
Qed.

(** The flag of [a] after one transaction: it was already set, or the
    transaction is a successful submission by [a]. *)
Lemma flag_after_step a c tx :
  default false (_hasSubmitted (storage (step fhe this c tx)) !! a) = true ↔
    default false (_hasSubmitted (storage c) !! a) = true ∨ submits fhe this a c tx.
Proof.
  destruct tx as [env call]. rewrite submits_iff.
  destruct call as [e p|user|user|user|grantee];
    try (change (step fhe this c (env, _)) with c;
         split; [auto|intros [?|(_ & ? & ? & [=] & _)]; done]).
  - rewrite step_submit.
    destruct (verifyInput fhe this (msg_sender env) e p) as [h|] eqn:Hv.
    + unfold after_submit; simpl.
      destruct (decide (msg_sender env = a)) as [<-|Hne].
      * rewrite lookup_insert_eq; simpl. split; [|done].
        intros _. right. split; [done|]. exists e, p. rewrite Hv. eauto.
      * rewrite lookup_insert_ne by done. split; [auto|].
        intros [?|[? _]]; done.
    + split; [auto|]. intros [?|(_ & e' & p' & [= <- <-] & Hs)]; [done|].
      rewrite Hv in Hs. by destruct Hs.
  - rewrite step_allow.
    destruct (default false (_hasSubmitted (storage c) !! msg_sender env));
      (split; [auto|intros [?|(_ & ? & ? & [=] & _)]; done]).
Qed.

Lemma flag_after_run a c txs :
  default false (_hasSubmitted (storage (run fhe this c txs)) !! a) = true ↔
    default false (_hasSubmitted (storage c) !! a) = true ∨
    ∃ before tx after,
      txs = before ++ tx :: after ∧ submits fhe this a (run fhe this c before) tx.
Proof.
  revert c. induction txs as [|tx txs IH]; intros c.
  - simpl. split; [auto|]. intros [?|(before & ? & ? & Heq & _)]; [done|].
    by destruct before.
  - change (run fhe this c (tx :: txs)) with (run fhe this (step fhe this c tx) txs).
    rewrite IH, flag_after_step. split.
    + intros [[?|Hs]|(before & t & after & -> & Hs)]; [by left| |].
      * right. by exists [], tx, txs.
      * right. by exists (tx :: before), t, after.
    + intros [?|(before & t & after & Heq & Hs)]; [by left; left|].
      destruct before as [|tx' before]; simplify_eq/=.
      * left. by right.
      * right. by exists before, t, after.
Qed.

(** C4.  The [hasSubmitted] flag of every address is false on the freshly
    deployed contract; a transaction of any kind (a submission, a grant
    or a view, succeeding or reverting) leaves a true flag true; a false
    flag becomes true exactly by a successful [submitPriceGuess] of that
    address; so after any sequence of transactions the flag is true
    exactly when the sequence contains a successful submission by that
    address. *)
Theorem hasSubmitted_once_true_always_true a :
  view (hasSubmitted a) genesis = Ok false ∧
  (∀ c tx, view (hasSubmitted a) c = Ok true →
           view (hasSubmitted a) (step fhe this c tx) = Ok true) ∧
  (∀ c tx, view (hasSubmitted a) c = Ok false →
           (view (hasSubmitted a) (step fhe this c tx) = Ok true ↔
            submits fhe this a c tx)) ∧
  (∀ txs, view (hasSubmitted a) (run fhe this genesis txs) = Ok true ↔
          ∃ before tx after,
            txs = before ++ tx :: after ∧
            submits fhe this a (run fhe this genesis before) tx).
Proof.
  split; [reflexivity|]. split; [|split].
  - intros c tx. rewrite !view_hasSubmitted. intros [= Hc].
    f_equal. apply flag_after_step. by left.
  - intros c tx. rewrite !view_hasSubmitted. intros [= Hc]. split.
    + intros [= Hs]. apply flag_after_step in Hs as [Hs|Hs]; [congruence|done].
    + intros Hs. f_equal. apply flag_after_step. by right.
  - intros txs. rewrite view_hasSubmitted. split.
    + intros [= Hs]. apply flag_after_run in Hs as [Hs|Hs]; [done|exact Hs].
    + intros Hs. f_equal. apply flag_after_run. by right.
Qed.

(** C3.  Two successful submissions in a row from the same address, the
    first of an encryption of [v1] and the second of an encryption of
    [v2]: afterwards the address's flag is true, the stored handle is the
    handle of the second submission, and the address decrypts it to [v2],
    which is not [v1] whenever the two values differ. *)
Theorem resubmission_overwrites c env1 env2 a e1 p1 e2 p2 v1 v2 :
  msg_sender env1 = a →
  msg_sender env2 = a →
  encrypts fhe this a e1 p1 v1 →
  encrypts fhe this a e2 p2 v2 →
  let c1 := step fhe this c (env1, SubmitPriceGuess e1 p1) in
  let c2 := step fhe this c1 (env2, SubmitPriceGuess e2 p2) in
  receipt fhe this c (env1, SubmitPriceGuess e1 p1) = Ok VNone ∧
  receipt fhe this c1 (env2, SubmitPriceGuess e2 p2) = Ok VNone ∧
  view (hasSubmitted a) c2 = Ok true ∧
  ∃ h2, verifyInput fhe this a e2 p2 = Some h2 ∧
        view (encryptedGuessOf a) c2 = Ok h2 ∧
        userDecrypt fhe c2 h2 a = Some v2 ∧
        (v1 ≠ v2 → userDecrypt fhe c2 h2 a ≠ Some v1).
Proof.
  intros <- Ha (h1 & Hv1 & Hc1) (h2 & Hv2 & Hc2); simpl.
  rewrite <- Ha in Hv2.
  rewrite !receipt_submit, !step_submit, Hv1, Hv2.
  rewrite view_hasSubmitted, view_encryptedGuessOf.
  do 2 (split; [reflexivity|]).
  unfold after_submit at 1 3; simpl. rewrite Ha, !lookup_insert_eq; simpl.
  split; [reflexivity|]. exists h2. rewrite Ha in Hv2.
  do 2 (split; [done|]).
  assert (userDecrypt fhe (after_submit this (after_submit this c env1 h1) env2 h2) h2
            (msg_sender env1) = Some v2) as Hd.
  { unfold userDecrypt. rewrite decide_True; [by rewrite Hc2|].
    unfold after_submit at 1; simpl. rewrite Ha. set_solver. }
  split; [exact Hd|]. rewrite Hd. congruence.
Qed.

(** C10.  On two chains that agree on everything except [_lastGuessTime],
    a call of [submitPriceGuess], [hasSubmitted], [encryptedGuessOf] or
    [allowDecryption] in the same environment returns the same result or
    reverts the same way, and the two chains afterwards again agree on
    everything except [_lastGuessTime]: same stored handles, same flags,
    same permission set, same events. *)
Theorem lastGuessTime_has_no_influence c1 c2 env call :
  differ_only_in_lastGuessTime c1 c2 →
  (∀ user, call ≠ LastGuessTimestamp user) →
  receipt fhe this c1 (env, call) = receipt fhe this c2 (env, call) ∧
  differ_only_in_lastGuessTime
    (step fhe this c1 (env, call)) (step fhe this c2 (env, call)).
Proof.
  intros (Hg & Hs & Ha & He) Hcall.
  destruct call as [e p|user|user|user|grantee].
  - rewrite !receipt_submit, !step_submit.
    destruct (verifyInput fhe this (msg_sender env) e p); [|done].
    split; [reflexivity|]. unfold differ_only_in_lastGuessTime, after_submit; simpl.
    by rewrite Hg, Hs, Ha, He.
  - split; [|done].
    change (view (let* b := hasSubmitted user in ret (VBool b))%exec c1 =
            view (let* b := hasSubmitted user in ret (VBool b))%exec c2).
    unfold view, transact, bind, hasSubmitted, read_hasSubmitted, get_storage; simpl.
    by rewrite Hs.
  - split; [|done].
    unfold receipt, transact, dispatch, bind, encryptedGuessOf,
      read_encryptedGuesses, get_storage; simpl.
    by rewrite Hg.
  - by destruct (Hcall user).
  - rewrite !receipt_allow, !step_allow, Hs.
    destruct (default false (_hasSubmitted (storage c2) !! msg_sender env)); [|done].
    split; [reflexivity|]. unfold differ_only_in_lastGuessTime, after_allow; simpl.
    by rewrite Hg, Ha.
Qed.

End ContractFacts.

(** *** The contract theorems at the example world *)

Section ContractWitnesses.

Import Contract Examples.
Local Open Scope N_scope.

(** Charlie submits 2500 at time 10 on the fresh contract. *)
Lemma submitPriceGuess_success_witness :
  verifyInput mock_fhe launchPrice (msg_sender (charlie_at 10)) 2500%N proof = Some 2500%N ∧
  ∃ c', transact genesis (submitPriceGuess mock_fhe launchPrice (charlie_at 10) 2500%N proof)
          = (Ok tt, c') ∧
        view (encryptedGuessOf charlie) c' = Ok 2500%N ∧
        view (hasSubmitted charlie) c' = Ok true ∧
        view (lastGuessTimestamp charlie) c' = Ok 10%N ∧
        (2500%N, charlie) ∈ acl c' ∧
        (2500%N, launchPrice) ∈ acl c' ∧
        events c' = events genesis ++ [PriceGuessSubmitted charlie 10%N].
Proof.
  split; [reflexivity|].
  apply (submitPriceGuess_success mock_fhe launchPrice genesis (charlie_at 10)
           2500%N proof 2500%N).
  reflexivity.
Defined.

(** After charlie's guess, dana (who has none) cannot grant; charlie can. *)
Lemma allowDecryption_requires_submission_witness :
  view (hasSubmitted (msg_sender (dana_at 20))) guessed = Ok false ∧
  transact guessed (allowDecryption (dana_at 20) charlie)
    = (Fail (Error "No guess submitted"), guessed) ∧
  view (hasSubmitted (msg_sender (charlie_at 20))) guessed = Ok true ∧
  ∃ c' h, transact guessed (allowDecryption (charlie_at 20) dana) = (Ok tt, c') ∧
          view (encryptedGuessOf charlie) guessed = Ok h ∧
          acl c' = {[ (h, dana) ]} ∪ acl guessed ∧
          storage c' = storage guessed ∧
          events c' = events guessed.
Proof.
  assert (view (hasSubmitted dana) guessed = Ok false) as Hd by (vm_compute; reflexivity).
  assert (view (hasSubmitted charlie) guessed = Ok true) as Hc by (vm_compute; reflexivity).
  split; [exact Hd|]. split.
  - exact (proj2 (proj1 (allowDecryption_requires_submission guessed (dana_at 20) charlie) Hd)).
  - split; [exact Hc|].
    exact (proj2 (allowDecryption_requires_submission guessed (charlie_at 20) dana) Hc).
Defined.

(** Charlie submits 2500, then 2700: the stored guess decrypts to 2700. *)
Lemma resubmission_overwrites_witness :
  encrypts mock_fhe launchPrice charlie 2500%N proof 2500%N ∧
  encrypts mock_fhe launchPrice charlie 2700%N proof 2700%N ∧
  view (hasSubmitted charlie)
    (run mock_fhe launchPrice genesis
       [(charlie_at 10, SubmitPriceGuess 2500 proof);
        (charlie_at 20, SubmitPriceGuess 2700 proof)]) = Ok true ∧
  ∃ h2, view (encryptedGuessOf charlie)
          (run mock_fhe launchPrice genesis
             [(charlie_at 10, SubmitPriceGuess 2500 proof);
              (charlie_at 20, SubmitPriceGuess 2700 proof)]) = Ok h2 ∧
        userDecrypt mock_fhe
          (run mock_fhe launchPrice genesis
             [(charlie_at 10, SubmitPriceGuess 2500 proof);
              (charlie_at 20, SubmitPriceGuess 2700 proof)]) h2 charlie = Some 2700%N.
Proof.
  assert (encrypts mock_fhe launchPrice charlie 2500%N proof 2500%N) as H1
    by (exists 2500%N; split; reflexivity).
  assert (encrypts mock_fhe launchPrice charlie 2700%N proof 2700%N) as H2
    by (exists 2700%N; split; reflexivity).
  split; [exact H1|]. split; [exact H2|].
  destruct (resubmission_overwrites mock_fhe launchPrice genesis
              (charlie_at 10) (charlie_at 20) charlie
              2500%N proof 2700%N proof 2500%N 2700%N eq_refl eq_refl H1 H2)
    as (_ & _ & Hflag & h2 & _ & Hh & Hd & _).
  split; [exact Hflag|]. exists h2. split; [exact Hh|exact Hd].
Defined.

(** Charlie's flag: false at deployment, true after the guess, still true
    after a reverted grant by dana. *)
Lemma hasSubmitted_once_true_always_true_witness :
  view (hasSubmitted charlie) genesis = Ok false ∧
  submits mock_fhe launchPrice charlie genesis
    (charlie_at 10, SubmitPriceGuess 2500 proof) ∧
  view (hasSubmitted charlie) guessed = Ok true ∧
  view (hasSubmitted charlie)
    (step mock_fhe launchPrice guessed (dana_at 20, AllowDecryption charlie)) = Ok true.
Proof.
  destruct (hasSubmitted_once_true_always_true mock_fhe launchPrice charlie)
    as (Hgen & Hmono & Hfirst & _).
  assert (submits mock_fhe launchPrice charlie genesis
            (charlie_at 10, SubmitPriceGuess 2500 proof)) as Hs.
  { split; [reflexivity|]. exists 2500%N, proof. split; reflexivity. }
  assert (view (hasSubmitted charlie) guessed = Ok true) as Hg
    by exact (proj2 (Hfirst genesis _ Hgen) Hs).
  split; [exact Hgen|]. split; [exact Hs|]. split; [exact Hg|].
  exact (Hmono guessed _ Hg).
Defined.

(** Dana submits with an empty proof: the chain stays as it was. *)
Lemma submitPriceGuess_invalid_proof_atomic_witness :
  verifyInput mock_fhe launchPrice (msg_sender (dana_at 30)) 3200%N [] = None ∧
  submitPriceGuess mock_fhe launchPrice (dana_at 30) 3200%N [] guessed
    = (Fail InvalidInput, guessed) ∧
  transact guessed (submitPriceGuess mock_fhe launchPrice (dana_at 30) 3200%N [])
    = (Fail InvalidInput, guessed) ∧
  step mock_fhe launchPrice guessed (dana_at 30, SubmitPriceGuess 3200%N []) = guessed.
Proof.
  split; [reflexivity|].
  apply (submitPriceGuess_invalid_proof_atomic mock_fhe launchPrice guessed
           (dana_at 30) 3200%N []).
  reflexivity.
Defined.

(** Two chains with different times recorded for charlie answer a grant
    by charlie alike. *)
Lemma lastGuessTime_has_no_influence_witness :
  differ_only_in_lastGuessTime guessed guessed_later ∧
  view (lastGuessTimestamp charlie) guessed ≠ view (lastGuessTimestamp charlie) guessed_later ∧
  receipt mock_fhe launchPrice guessed (charlie_at 40, AllowDecryption dana)
    = receipt mock_fhe launchPrice guessed_later (charlie_at 40, AllowDecryption dana) ∧
  differ_only_in_lastGuessTime
    (step mock_fhe launchPrice guessed (charlie_at 40, AllowDecryption dana))
    (step mock_fhe launchPrice guessed_later (charlie_at 40, AllowDecryption dana)).
Proof.
  assert (differ_only_in_lastGuessTime guessed guessed_later) as Hd.
  { repeat split. }
  split; [exact Hd|]. split.
  - rewrite !view_lastGuessTimestamp. unfold guessed_later, guessed.
    rewrite step_submit. simpl. rewrite !lookup_insert_eq. simpl. discriminate.
  - apply (lastGuessTime_has_no_influence mock_fhe launchPrice guessed guessed_later
             (charlie_at 40) (AllowDecryption dana) Hd).
    intros user. discriminate.
Defined.

End ContractWitnesses.

(** * Properties of the hook *)

Section HookFacts.

Import Hook.

(** C7.  The derived [hasSubmitted] is true exactly when a handle has
    been fetched (the value is neither [undefined] nor the empty string)
    and the handle is neither of the two spellings of the all-zero
    sentinel, [ethers.ZeroHash] and ["0x0"]; with no handle, and with
    either sentinel, it is false.  On what a [bytes32] read returns, a
    string of 66 characters, it is true exactly when the handle is not
    [ethers.ZeroHash]. *)
Theorem client_hasSubmitted_iff_handle_not_sentinel :
  Hook.hasSubmitted None = false ∧
  Hook.hasSubmitted (Some "") = false ∧
  Hook.hasSubmitted (Some ZeroHash) = false ∧
  Hook.hasSubmitted (Some "0x0") = false ∧
  (∀ encryptedHandle,
     Hook.hasSubmitted encryptedHandle = true ↔
     ∃ h, encryptedHandle = Some h ∧ h ≠ "" ∧ h ≠ ZeroHash ∧ h ≠ "0x0") ∧
  (∀ h, String.length h = 66 →
        (Hook.hasSubmitted (Some h) = true ↔ h ≠ ZeroHash)).
Proof.
  do 4 (split; [reflexivity|]).
  assert (∀ encryptedHandle,
            Hook.hasSubmitted encryptedHandle = true ↔
            ∃ h, encryptedHandle = Some h ∧ h ≠ "" ∧ h ≠ ZeroHash ∧ h ≠ "0x0") as Hiff.
  { intros [h|]; simpl.
    - case_bool_decide as Hempty.
      + split; [done|]. intros (? & [= <-] & ? & _). done.
      + rewrite andb_true_iff, !bool_decide_eq_true. split.
        * intros [? ?]. by exists h.
        * intros (? & [= <-] & _ & ? & ?). done.
    - split; [done|]. intros (? & [=] & _). }
  split; [exact Hiff|].
  intros h Hlen. rewrite Hiff. split.
  - intros (? & [= <-] & _ & Hz & _). exact Hz.
  - intros Hz. exists h. repeat split; [|exact Hz|]; intros ->; discriminate.
Qed.

Section DecryptedFacts.

Context (StringToBigInt : string → Outcome Z).

(** C9.  [valueDecrypted] is true exactly when there is a current handle,
    the results hold a value under that handle, and the number [BigInt]
    makes of that value is not zero.  A decrypted zero gives false, and
    so does a handle with no result at all: on [valueDecrypted] alone the
    two cannot be told apart. *)
Theorem valueDecrypted_iff_nonzero_result :
  (∀ encryptedHandle results,
     valueDecrypted StringToBigInt encryptedHandle results = Returned true ↔
     ∃ h cache val n,
       encryptedHandle = Some h ∧ h ≠ "" ∧ results = Some cache ∧
       cache !! h = Some val ∧ BigInt StringToBigInt val = Returned n ∧ n ≠ 0%Z) ∧
  (∀ h cache,
     valueDecrypted StringToBigInt (Some h) (Some (<[h := CBigInt 0]> cache)) =
       Returned false) ∧
  (∀ h cache,
     valueDecrypted StringToBigInt (Some h) (Some (delete h cache)) =
       Returned false) ∧
  (∀ h, valueDecrypted StringToBigInt (Some h) None = Returned false) ∧
  (∀ results, valueDecrypted StringToBigInt None results = Returned false).
Proof.
  split; [|split; [|split; [|split]]].
  - intros [h|] [cache|]; simpl;
      try (split; [done|]; intros (? & ? & ? & ? & ? & ? & ? & _); done).
    case_bool_decide as Hempty.
    { split; [done|]. intros (? & ? & ? & ? & [= <-] & ? & _). done. }
    destruct (cache !! h) as [val|] eqn:Hval.
    + destruct (BigInt StringToBigInt val) as [n|err] eqn:Hn.
      * split.
        -- intros [= Hnz%bool_decide_eq_true]. by exists h, cache, val, n.
        -- intros (? & ? & ? & n' & [= <-] & _ & [= <-] & Hval' & Hn' & Hnz).
           rewrite Hval in Hval'. injection Hval' as <-.
           rewrite Hn in Hn'. injection Hn' as <-.
           f_equal. by apply bool_decide_eq_true.
      * split; [done|].
        intros (? & ? & ? & n' & [= <-] & _ & [= <-] & Hval' & Hn' & _).
        rewrite Hval in Hval'. injection Hval' as <-. congruence.
    + split; [done|].
      intros (? & ? & ? & ? & [= <-] & _ & [= <-] & Hval' & _). congruence.
  - intros h cache; simpl. case_bool_decide; [done|].
    rewrite lookup_insert_eq; simpl. done.
  - intros h cache; simpl. case_bool_decide; [done|].
    rewrite lookup_delete_eq. done.
  - by intros h.
  - by intros [|].
Qed.

End DecryptedFacts.

Section SubmitValueFacts.

Context {number Abi Runner Encrypted Params WriteContract Tx : Type}.

Local Abbreviation Inputs := (@Inputs Abi Runner).
Local Abbreviation State := (@State number Encrypted Params Tx).
Local Abbreviation Externals :=
  (@Externals number Abi Runner Encrypted Params WriteContract Tx).

Implicit Types (inputs : Inputs) (ext : Externals) (s : State)
  (label : string) (amount : number).

(** The state after [setBusy(true)] and the first [setStatus]. *)
Local Abbreviation started ext label amount s :=
  ({| busy := true;
      status := "Encrypting " +:+ showNumber ext amount +:+ " for " +:+ label +:+ "...";
      calls := calls s;
      shown := shown s |}).

(** Past the guard, [submitValue] sets the busy flag and the first
    status, runs its [try] block, then the [catch] handler when the block
    threw, whose own throw is the outcome of the call, and
    [setBusy(false)] either way. *)
Lemma submitValue_unfold inputs ext label amount s :
  guard inputs = false →
  submitValue inputs ext label amount s =
    match submitValue_try inputs ext label amount (started ext label amount s) with
    | (Returned _, s1) =>
        (Returned tt,
         {| busy := false; status := status s1; calls := calls s1; shown := shown s1 |})
    | (Threw err, s1) =>
        match describe err with
        | Returned text =>
            (Returned tt,
             {| busy := false; status := "Submission error: " +:+ text;
                calls := calls s1; shown := shown s1 |})
        | Threw thrown =>
            (Threw thrown,
             {| busy := false; status := status s1; calls := calls s1;
                shown := shown s1 |})
        end
    end.
Proof.
  intros Hg. unfold submitValue. rewrite Hg.
  unfold bind, setBusy, setStatus, settle, try_finally, try_catch; simpl.
  destruct (submitValue_try inputs ext label amount (started ext label amount s))
    as [[[]|err] s1]; [reflexivity|].
  destruct (describe err); reflexivity.
Qed.

Lemma guarded_run inputs ext label amount s :
  guard inputs = true → submitValue inputs ext label amount s = (Returned tt, s).
Proof. intros Hg. unfold submitValue. by rewrite Hg. Qed.


(** What stays of the [try] block's last state when [submitValue] ends. *)
Lemma submitValue_calls inputs ext label amount s :
  guard inputs = false →
  calls (submitValue inputs ext label amount s).2 =
    calls (submitValue_try inputs ext label amount (started ext label amount s)).2.
Proof.
  intros Hg. rewrite submitValue_unfold by done.
  destruct (submitValue_try inputs ext label amount (started ext label amount s))
    as [[[]|err] s1]; [done|]. by destruct (describe err).
Qed.


Lemma submitValue_clears_busy inputs ext label amount s :
  guard inputs = false → busy (submitValue inputs ext label amount s).2 = false.
Proof.
  intros Hg. rewrite submitValue_unfold by done.
  destruct (submitValue_try inputs ext label amount (started ext label amount s))
    as [[[]|err] s1]; [done|]. by destruct (describe err).
Qed.










End SubmitValueFacts.

End HookFacts.

(** *** The hook theorems at the example session *)

Section HookWitnesses.

Import Hook Examples.

(** A fetched non-zero handle counts as submitted, the zero hash does not. *)
Lemma client_hasSubmitted_iff_handle_not_sentinel_witness :
  Hook.hasSubmitted (Some handle_2500) = true ∧
  Hook.hasSubmitted (Some ZeroHash) = false.
Proof.
  destruct client_hasSubmitted_iff_handle_not_sentinel as (_ & _ & Hzero & _ & Hiff & _).
  split; [|exact Hzero].
  apply Hiff. exists handle_2500. repeat split; discriminate.
Defined.

(** A decrypted 2500 shows as decrypted, a decrypted 0 does not. *)
Lemma valueDecrypted_iff_nonzero_result_witness :
  valueDecrypted parse_nothing (Some handle_2500)
    (Some {[ handle_2500 := CBigInt 2500 ]}) = Returned true ∧
  valueDecrypted parse_nothing (Some handle_2500)
    (Some (<[ handle_2500 := CBigInt 0 ]> ∅)) = Returned false.
Proof.
  destruct (valueDecrypted_iff_nonzero_result parse_nothing) as (Hiff & Hzero & _).
  split; [|exact (Hzero handle_2500 ∅)].
  apply Hiff. exists handle_2500, {[ handle_2500 := CBigInt 2500 ]}, (CBigInt 2500), 2500%Z.
  repeat split; discriminate.
Defined.





End HookWitnesses.

(** * More on the contract *)

Section ContractTraces.

Import Contract.
Context (fhe : FHEVM) (this : address).

Implicit Types (c : Chain) (env : Env) (a user grantee : address)
  (tx : Env * Call) (txs : list (Env * Call)).

Lemma run_snoc c txs tx :
  run fhe this c (txs ++ [tx]) = step fhe this (run fhe this c txs) tx.
Proof. unfold run. apply foldl_snoc. Qed.

Lemma step_view c env call :
  (∀ e p, call ≠ SubmitPriceGuess e p) →
  (∀ grantee, call ≠ AllowDecryption grantee) →
  step fhe this c (env, call) = c.
Proof.
  intros Hs Ha. destruct call; try reflexivity; [by destruct (Hs encryptedGuess zkProof)|].
  by destruct (Ha grantee).
Qed.

(** The record of [a] after one transaction. *)
Lemma guessRecord_step c tx a :
  guessRecord (step fhe this c tx) a =
    match submission_of fhe this a tx with
    | Some (h, t) => (true, h, t)
    | None => guessRecord c a
    end.
Proof.
  destruct tx as [env call]. unfold submission_of; simpl.
  destruct call as [e p|user|user|user|grantee]; try reflexivity.
  - rewrite step_submit. case_decide as Ha.
    + subst a. destruct (verifyInput fhe this (msg_sender env) e p) as [h|]; simpl; [|done].
      unfold guessRecord, after_submit; simpl. by rewrite !lookup_insert_eq.
    + destruct (verifyInput fhe this (msg_sender env) e p) as [h|]; simpl; [|done].
      unfold guessRecord, after_submit; simpl. by rewrite !lookup_insert_ne.
  - rewrite step_allow.
    by destruct (default false (_hasSubmitted (storage c) !! msg_sender env)).
Qed.

Lemma guessRecord_run c txs a :
  guessRecord (run fhe this c txs) a =
    match last_submission fhe this a txs with
    | Some (h, t) => (true, h, t)
    | None => guessRecord c a
    end.
Proof.
  unfold last_submission.
  induction txs as [|tx txs IH] using rev_ind; [done|].
  rewrite run_snoc, guessRecord_step, omap_app; simpl.
  destruct (submission_of fhe this a tx) as [[h t]|]; simpl.
  - by rewrite last_snoc.
  - by rewrite app_nil_r.
Qed.

(** X1.  After any sequence of transactions on the freshly deployed
    contract, the three views of an address return the flag, the handle
    and the block time of the last accepted [submitPriceGuess] that the
    address sent in the sequence; when it sent none they return [false],
    the zero handle and zero. *)
Theorem views_read_last_submission txs a :
  let c := run fhe this genesis txs in
  view (hasSubmitted a) c = Ok (bool_decide (is_Some (last_submission fhe this a txs))) ∧
  view (encryptedGuessOf a) c = Ok (default 0%N (fst <$> last_submission fhe this a txs)) ∧
  view (lastGuessTimestamp a) c = Ok (default 0%N (snd <$> last_submission fhe this a txs)).
Proof.
  simpl. rewrite view_hasSubmitted, view_encryptedGuessOf, view_lastGuessTimestamp.
  pose proof (guessRecord_run genesis txs a) as Hr. unfold guessRecord in Hr at 1.
  destruct (last_submission fhe this a txs) as [[h t]|]; simpl.
  - by injection Hr as -> -> ->.
  - unfold guessRecord in Hr; simpl in Hr. by injection Hr as -> -> ->.
Qed.

(** X2.  A transaction sent by another address, whatever it calls and
    whether it succeeds or reverts, leaves the flag, the stored handle
    and the recorded time of [a] as they were. *)
Theorem other_senders_leave_record c tx a :
  msg_sender tx.1 ≠ a →
  view (hasSubmitted a) (step fhe this c tx) = view (hasSubmitted a) c ∧
  view (encryptedGuessOf a) (step fhe this c tx) = view (encryptedGuessOf a) c ∧
  view (lastGuessTimestamp a) (step fhe this c tx) = view (lastGuessTimestamp a) c.
Proof.
  intros Hne. rewrite !view_hasSubmitted, !view_encryptedGuessOf, !view_lastGuessTimestamp.
  pose proof (guessRecord_step c tx a) as Hr.
  assert (submission_of fhe this a tx = None) as Hnone.
  { unfold submission_of. destruct (tx.2); try done. by rewrite decide_False. }
  rewrite Hnone in Hr. unfold guessRecord in Hr. by injection Hr as -> -> ->.
Qed.

(** What one transaction adds to the event log and to the permission set. *)
Lemma events_step c tx :
  events (step fhe this c tx) = events c ++ option_list (event_of fhe this tx).
Proof.
  destruct tx as [env call]. unfold event_of; simpl.
  destruct call as [e p|user|user|user|grantee];
    try (change (step fhe this c (env, _)) with c; simpl; by rewrite app_nil_r).
  - rewrite step_submit.
    destruct (verifyInput fhe this (msg_sender env) e p); simpl; [done|].
    by rewrite app_nil_r.
  - rewrite step_allow, app_nil_r.
    by destruct (default false (_hasSubmitted (storage c) !! msg_sender env)).
Qed.

Lemma events_run c txs :
  events (run fhe this c txs) = events c ++ omap (event_of fhe this) txs.
Proof.
  induction txs as [|tx txs IH] using rev_ind; [by rewrite app_nil_r|].
  rewrite run_snoc, events_step, IH, omap_app, <- (assoc_L (++)). simpl.
  by destruct (event_of fhe this tx).
Qed.

Lemma acl_step c tx : acl c ⊆ acl (step fhe this c tx).
Proof.
  destruct tx as [env call].
  destruct call as [e p|user|user|user|grantee]; try done.
  - rewrite step_submit.
    destruct (verifyInput fhe this (msg_sender env) e p); [|done].
    unfold after_submit; simpl. set_solver.
  - rewrite step_allow.
    destruct (default false (_hasSubmitted (storage c) !! msg_sender env)); [|done].
    unfold after_allow; simpl. set_solver.
Qed.

Lemma acl_run c txs : acl c ⊆ acl (run fhe this c txs).
Proof.
  induction txs as [|tx txs IH] using rev_ind; [done|].
  rewrite run_snoc. etrans; [exact IH|apply acl_step].
Qed.

Lemma storage_step c tx :
  event_of fhe this tx = None → storage (step fhe this c tx) = storage c.
Proof.
  destruct tx as [env call]. unfold event_of; simpl.
  destruct call as [e p|user|user|user|grantee]; try done.
  - rewrite step_submit.
    by destruct (verifyInput fhe this (msg_sender env) e p).
  - rewrite step_allow.
    by destruct (default false (_hasSubmitted (storage c) !! msg_sender env)).
Qed.

(** X3.  Only an accepted [submitPriceGuess] writes to the mappings or
    emits an event: every other transaction (a view, a grant, a refused
    submission) leaves the three mappings and the event log as they were,
    and the event log stays the same only for those. *)
Theorem only_accepted_submission_writes c tx :
  (event_of fhe this tx = None → storage (step fhe this c tx) = storage c) ∧
  (events (step fhe this c tx) = events c ↔ event_of fhe this tx = None).
Proof.
  split; [apply storage_step|].
  rewrite events_step. destruct (event_of fhe this tx) as [ev|]; simpl.
  - split; [|done]. intros Heq.
    apply (f_equal length) in Heq. rewrite length_app in Heq. simpl in Heq. lia.
  - by rewrite app_nil_r.
Qed.

(** X4.  Nothing is ever taken back: over any sequence of transactions
    the permission set only grows and the event log only gets longer at
    its end, so whoever could decrypt a handle before can decrypt it
    after, to the same value. *)
Theorem permissions_and_events_only_grow c txs :
  acl c ⊆ acl (run fhe this c txs) ∧
  events c `prefix_of` events (run fhe this c txs) ∧
  ∀ h user v, userDecrypt fhe c h user = Some v →
              userDecrypt fhe (run fhe this c txs) h user = Some v.
Proof.
  split; [apply acl_run|]. split.
  - rewrite events_run. by apply prefix_app_r.
  - intros h user v. unfold userDecrypt. case_decide as Hin; [|done].
    intros Hv. rewrite decide_True; [done|]. by apply acl_run.
Qed.

(** X5.  The event log of the deployed contract is the list of its
    accepted submissions in the order they were made, each with its
    sender and block time; refused submissions, grants and views leave no
    trace in it. *)
Theorem events_are_accepted_submissions txs :
  events (run fhe this genesis txs) = omap (event_of fhe this) txs.
Proof. by rewrite events_run. Qed.

Lemma event_time_of_event_of a tx :
  event_of fhe this tx ≫= event_time_of a = snd <$> submission_of fhe this a tx.
Proof.
  destruct tx as [env call]. unfold event_of, submission_of; simpl.
  destruct call as [e p|user|user|user|grantee]; try done.
  case_decide as Ha.
  - subst a. destruct (verifyInput fhe this (msg_sender env) e p); simpl; [|done].
    by rewrite decide_True.
  - destruct (verifyInput fhe this (msg_sender env) e p); simpl; [|done].
    by rewrite decide_False.
Qed.

Lemma last_event_time_run a txs :
  last_event_time a (omap (event_of fhe this) txs) =
    snd <$> last_submission fhe this a txs.
Proof.
  unfold last_event_time, last_submission.
  induction txs as [|tx txs IH] using rev_ind; [done|].
  rewrite !omap_app; simpl.
  pose proof (event_time_of_event_of a tx) as Ht.
  destruct (event_of fhe this tx) as [ev|], (submission_of fhe this a tx) as [[h t]|];
    simpl in *; rewrite ?Ht, ?app_nil_r, ?last_snoc; done.
Qed.

(** X6.  The event log tells the state: on the deployed contract, after
    any sequence of transactions, an address has its flag set exactly
    when the log holds an event of that address, and its
    [lastGuessTimestamp] is the timestamp of its last event (zero when
    it has none). *)
Theorem event_log_tells_flag_and_time txs a :
  let c := run fhe this genesis txs in
  view (hasSubmitted a) c = Ok (bool_decide (is_Some (last_event_time a (events c)))) ∧
  view (lastGuessTimestamp a) c = Ok (default 0%N (last_event_time a (events c))).
Proof.
  simpl. rewrite events_run; simpl. rewrite last_event_time_run.
  rewrite view_hasSubmitted, view_lastGuessTimestamp.
  pose proof (guessRecord_run genesis txs a) as Hr. unfold guessRecord in Hr at 1.
  destruct (last_submission fhe this a txs) as [[h t]|]; simpl.
  - by injection Hr as -> _ ->.
  - unfold guessRecord in Hr; simpl in Hr. by injection Hr as -> _ ->.
Qed.

(** The submitter and the contract hold a permission on every stored
    handle: true at deployment and kept by every transaction. *)
Lemma owner_allowed_step c tx :
  (∀ a, default false (_hasSubmitted (storage c) !! a) = true →
        let h := default 0%N (_encryptedGuesses (storage c) !! a) in
        (h, a) ∈ acl c ∧ (h, this) ∈ acl c) →
  ∀ a, default false (_hasSubmitted (storage (step fhe this c tx)) !! a) = true →
       let h := default 0%N (_encryptedGuesses (storage (step fhe this c tx)) !! a) in
       (h, a) ∈ acl (step fhe this c tx) ∧ (h, this) ∈ acl (step fhe this c tx).
Proof.
  intros Hinv a. pose proof (guessRecord_step c tx a) as Hr.
  pose proof (acl_step c tx) as Hsub. unfold guessRecord in Hr.
  destruct (submission_of fhe this a tx) as [[h t]|] eqn:Hs.
  - injection Hr as _ -> _. intros _; simpl.
    destruct tx as [env call]. unfold submission_of in Hs; simpl in Hs.
    destruct call as [e p| | | |]; try done.
    case_decide as Ha; [subst a|done]. rewrite step_submit.
    destruct (verifyInput fhe this (msg_sender env) e p) as [h'|]; [|done].
    injection Hs as -> _. unfold after_submit; simpl. set_unfold. tauto.
  - injection Hr as -> -> _. intros Hflag; simpl.
    destruct (Hinv a Hflag) as [? ?]. split; by apply Hsub.
Qed.

Lemma owner_allowed_run txs a :
  default false (_hasSubmitted (storage (run fhe this genesis txs)) !! a) = true →
  let h := default 0%N (_encryptedGuesses (storage (run fhe this genesis txs)) !! a) in
  (h, a) ∈ acl (run fhe this genesis txs) ∧ (h, this) ∈ acl (run fhe this genesis txs).
Proof.
  revert a. induction txs as [|tx txs IH] using rev_ind; [done|].
  rewrite run_snoc. by apply owner_allowed_step.
Qed.

(** X7.  On the deployed contract, after any sequence of transactions,
    an address whose flag is set can decrypt the handle stored for it,
    and the contract itself holds a permission on that handle: later
    submissions and grants of anybody never lock a submitter out of the
    current guess. *)
Theorem submitter_can_always_decrypt txs a :
  let c := run fhe this genesis txs in
  view (hasSubmitted a) c = Ok true →
  ∃ h, view (encryptedGuessOf a) c = Ok h ∧
       userDecrypt fhe c h a = Some (cleartext fhe h) ∧
       (h, this) ∈ acl c.
Proof.
  simpl. rewrite view_hasSubmitted, view_encryptedGuessOf. intros [= Hflag].
  destruct (owner_allowed_run txs a Hflag) as [Ha Hthis].
  eexists. split; [reflexivity|]. split; [|exact Hthis].
  unfold userDecrypt. by rewrite decide_True.
Qed.

(** X8.  Grants are safe to repeat and to reorder: granting the same
    address twice leaves the chain as after the first grant, and two
    grants, by the same or by different callers, give the same chain in
    either order. *)
Theorem grants_idempotent_and_commute c env grantee env' grantee' :
  step fhe this (step fhe this c (env, AllowDecryption grantee))
    (env, AllowDecryption grantee)
  = step fhe this c (env, AllowDecryption grantee) ∧
  step fhe this (step fhe this c (env, AllowDecryption grantee))
    (env', AllowDecryption grantee')
  = step fhe this (step fhe this c (env', AllowDecryption grantee'))
      (env, AllowDecryption grantee).
Proof.
  rewrite !step_allow. split.
  - destruct (default false (_hasSubmitted (storage c) !! msg_sender env)) eqn:Hf;
      rewrite ?step_allow; simpl; rewrite ?Hf; [|done].
    unfold after_allow; simpl. f_equal. apply set_eq. intros x. set_unfold. tauto.
  - destruct (default false (_hasSubmitted (storage c) !! msg_sender env)) eqn:Hf,
      (default false (_hasSubmitted (storage c) !! msg_sender env')) eqn:Hf';
      rewrite ?step_allow; simpl; rewrite ?Hf, ?Hf'; try done.
    unfold after_allow; simpl. f_equal. apply set_eq. intros x. set_unfold. tauto.
Qed.

(** X9.  After a submitter grants an address, that address decrypts the
    submitter's stored handle to the very value the submitter decrypts it
    to. *)
Theorem grantee_decrypts_like_submitter txs env grantee :
  let c := run fhe this genesis txs in
  let c' := step fhe this c (env, AllowDecryption grantee) in
  view (hasSubmitted (msg_sender env)) c = Ok true →
  ∃ h, view (encryptedGuessOf (msg_sender env)) c' = Ok h ∧
       userDecrypt fhe c' h grantee = Some (cleartext fhe h) ∧
       userDecrypt fhe c' h (msg_sender env) = Some (cleartext fhe h).
Proof.
  simpl. rewrite view_hasSubmitted, view_encryptedGuessOf. intros [= Hflag].
  destruct (owner_allowed_run txs (msg_sender env) Hflag) as [Ha _].
  rewrite step_allow, Hflag. eexists. split; [reflexivity|].
  unfold userDecrypt, after_allow; simpl.
  rewrite !decide_True; [done|set_solver..].
Qed.

(** X10.  A grant is for the handle stored at the time of the grant.
    When the submitter later submits again and the new handle is one the
    grantee holds no permission on, the grantee cannot decrypt the new
    stored guess until granted again, while the permission on the old
    handle stays. *)
Theorem grant_does_not_follow_resubmission c env grantee env' e p h' :
  let c1 := step fhe this c (env, AllowDecryption grantee) in
  let c2 := step fhe this c1 (env', SubmitPriceGuess e p) in
  msg_sender env' = msg_sender env →
  view (hasSubmitted (msg_sender env)) c = Ok true →
  verifyInput fhe this (msg_sender env') e p = Some h' →
  grantee ≠ msg_sender env → grantee ≠ this → (h', grantee) ∉ acl c1 →
  view (encryptedGuessOf (msg_sender env)) c2 = Ok h' ∧
  userDecrypt fhe c2 h' grantee = None ∧
  ∃ h, view (encryptedGuessOf (msg_sender env)) c = Ok h ∧
       userDecrypt fhe c2 h grantee = Some (cleartext fhe h).
Proof.
  simpl. rewrite view_hasSubmitted, !view_encryptedGuessOf.
  intros Hsame [= Hflag] Hv Hne Hthis Hfresh.
  rewrite step_submit, Hv. rewrite step_allow, Hflag in Hfresh |- *.
  unfold after_submit at 1; simpl. rewrite Hsame, lookup_insert_eq; simpl.
  split; [done|]. split.
  - unfold userDecrypt. rewrite decide_False; [done|].
    unfold after_submit; simpl. rewrite Hsame. set_unfold.
    intros [[= ?]|[[= ?]|?]]; [done|done|tauto].
  - eexists. split; [reflexivity|].
    unfold userDecrypt. rewrite decide_True; [done|].
    unfold after_submit, after_allow; simpl. set_solver.
Qed.

End ContractTraces.

(** * More on the hook *)

Section HookDerived.

Import Hook.

(** X11.  A decryption request is made exactly when a handle has been
    fetched that is not a sentinel and the contract address is known; it
    then holds one entry, with that very handle and that address.  No
    request is ever made for the zero hash or without a handle. *)
Theorem decryptParams_only_for_real_handle encryptedHandle infoAddress reqs :
  decryptParams encryptedHandle infoAddress = Some reqs ↔
  ∃ h a, encryptedHandle = Some h ∧ h ≠ "" ∧ h ≠ ZeroHash ∧ h ≠ "0x0" ∧
         infoAddress = Some a ∧ a ≠ "" ∧
         reqs = [ {| handle := h; contractAddress := a |} ].
Proof.
  unfold decryptParams.
  destruct encryptedHandle as [h|], infoAddress as [a|]; simpl;
    try (split; [by repeat case_bool_decide|];
         intros (? & ? & ? & ? & ? & ? & ? & ? & ?); done).
  rewrite (bool_decide_decide (h = "")), (bool_decide_decide (a = "")).
  rewrite (bool_decide_decide (h ≠ ZeroHash)), (bool_decide_decide (h ≠ "0x0")).
  destruct (decide (h = "")) as [He|He]; simpl.
  - split; [done|]. intros (? & ? & [= <-] & ? & _). done.
  - destruct (decide (h ≠ ZeroHash)) as [Hz|Hz]; simpl.
    + destruct (decide (h ≠ "0x0")) as [Hx|Hx]; simpl.
      * destruct (decide (a = "")) as [Ha|Ha]; simpl.
        -- split; [done|]. intros (? & ? & _ & _ & _ & _ & [= <-] & ? & _). done.
        -- split.
           ++ intros [= <-]. by exists h, a.
           ++ intros (? & ? & [= <-] & _ & _ & _ & [= <-] & _ & ->). done.
      * split; [done|]. intros (? & ? & [= <-] & _ & _ & ? & _). done.
    + split; [done|]. intros (? & ? & [= <-] & _ & ? & _). done.
Qed.

Section ClearValueFacts.

Context (StringToBigInt : string → Outcome Z).

(** X12.  [clearValue] tells a decrypted zero from no decryption, which
    [valueDecrypted] does not: whenever [valueDecrypted] is true there is
    a [clearValue] for the current handle; without a [clearValue],
    [valueDecrypted] is false (and does not throw); and a decrypted zero
    has [clearValue] zero while [valueDecrypted] is false. *)
Theorem clearValue_tells_zero_from_nothing :
  (∀ encryptedHandle results,
     valueDecrypted StringToBigInt encryptedHandle results = Returned true →
     ∃ h val, encryptedHandle = Some h ∧
              clearValue encryptedHandle results = Some (h, val)) ∧
  (∀ encryptedHandle results,
     clearValue encryptedHandle results = None →
     valueDecrypted StringToBigInt encryptedHandle results = Returned false) ∧
  (∀ h cache,
     h ≠ "" →
     clearValue (Some h) (Some (<[h := CBigInt 0]> cache)) = Some (h, CBigInt 0) ∧
     valueDecrypted StringToBigInt (Some h) (Some (<[h := CBigInt 0]> cache))
       = Returned false ∧
     clearValue (Some h) (Some (delete h cache)) = None ∧
     valueDecrypted StringToBigInt (Some h) (Some (delete h cache))
       = Returned false).
Proof.
  split; [|split].
  - intros [h|] [cache|]; simpl; try done.
    case_bool_decide; [done|].
    destruct (cache !! h) as [val|]; [|done]. intros _. by exists h, val.
  - intros [h|] [cache|]; simpl; try done.
    case_bool_decide; [done|]. by destruct (cache !! h).
  - intros h cache Hne; simpl. rewrite bool_decide_false by done.
    rewrite lookup_insert_eq, lookup_delete_eq. done.
Qed.

End ClearValueFacts.

End HookDerived.

Section HookRuns.

Import Hook.

Context {number Abi Runner Encrypted Params WriteContract Tx : Type}.

Local Abbreviation Inputs := (@Inputs Abi Runner).
Local Abbreviation State := (@State number Encrypted Params Tx).
Local Abbreviation Externals :=
  (@Externals number Abi Runner Encrypted Params WriteContract Tx).

Implicit Types (inputs : Inputs) (ext : Externals) (s : State)
  (label : string) (amount : number).

(** The state after [setBusy(true)] and the first [setStatus]. *)
Local Abbreviation started ext label amount s :=
  ({| busy := true;
      status := "Encrypting " +:+ showNumber ext amount +:+ " for " +:+ label +:+ "...";
      calls := calls s;
      shown := shown s |}).

(** Runs the [try] block in the goal collaborator by collaborator and
    hands every way it can end to [tac], with the outcome of each call
    made so far among the hypotheses. *)
Local Ltac run_try inputs ext amount tac :=
  unfold submitValue_try, getContract, bind, call, await, throw, ret, setStatus; simpl;
  destruct (encryptWith ext amount) as [[encrypted|]|?] eqn:He; simpl; [|tac..];
  destruct (hasContract inputs) eqn:Hc; simpl; [|tac];
  destruct (ethersSigner inputs) as [signer|] eqn:Hs,
           (contractInfo inputs) as [info|] eqn:Hi; simpl; [|tac..];
  destruct (newContract ext (address info) (abi info) signer)
    as [writeContract|?] eqn:Hn; simpl; [|tac];
  destruct (buildParamsFromAbi ext encrypted (abi info) "submitPriceGuess")
    as [params'|?] eqn:Hp; simpl; [|tac];
  destruct (sendSubmitPriceGuess ext writeContract params' 300000)
    as [tx|?] eqn:Ht; simpl; [|tac];
  destruct (wait ext tx) as [[]|?] eqn:Hw; simpl; [|tac];
  destruct (reloadValue ext) as [[]|?] eqn:Hr; simpl; tac.

(** Reads the new calls off an equation [log ++ [c1] ++ ... = log ++ new]. *)
Local Ltac read_new H new :=
  rewrite <- ?(assoc_L (++)) in H; simpl in H;
  apply app_inv_head in H; subst new.

Lemma no_new_calls s (new : list (ExtCall number Encrypted Params Tx)) :
  calls s = calls s ++ new → new = [].
Proof.
  intros H. rewrite <- (app_nil_r (calls s)) in H at 1. by apply app_inv_head in H.
Qed.


(** X14.  A transaction is sent only with what the steps before it
    produced: whenever a run of [submitValue] records a call of the
    contract's [submitPriceGuess], the encryption of the amount had
    returned a payload, a signer was present, the parameters sent are the
    ones built from that payload, and the gas limit is 300000. *)
Theorem transaction_sent_only_after_encryption inputs ext label amount s new params gas :
  calls (submitValue inputs ext label amount s).2 = calls s ++ new →
  CallSubmitPriceGuess params gas ∈ new →
  gas = 300000%N ∧
  ∃ encrypted info signer writeContract,
    encryptWith ext amount = Returned (Some encrypted) ∧
    contractInfo inputs = Some info ∧
    ethersSigner inputs = Some signer ∧
    newContract ext (address info) (abi info) signer = Returned writeContract ∧
    buildParamsFromAbi ext encrypted (abi info) "submitPriceGuess" = Returned params.
Proof.
  destruct (guard inputs) eqn:Hg.
  { rewrite guarded_run by done. simpl. intros ->%no_new_calls Hin.
    by apply elem_of_nil in Hin. }
  rewrite submitValue_calls by done.
  run_try inputs ext amount
    ltac:(intros Hnew Hin; read_new Hnew new;
          repeat (apply elem_of_cons in Hin as [Hin|Hin]);
          try (by apply elem_of_nil in Hin); try discriminate;
          injection Hin as -> ->; (split; [done|by eauto 10])).
Qed.

(** X15.  The stored handle is fetched again exactly when the
    transaction was confirmed: a run of [submitValue] records a call of
    [reloadValue] if and only if it recorded the wait for a transaction
    and that wait returned. *)
Theorem reload_exactly_after_confirmation inputs ext label amount s new :
  calls (submitValue inputs ext label amount s).2 = calls s ++ new →
  (CallReloadValue ∈ new ↔ ∃ tx, CallWait tx ∈ new ∧ wait ext tx = Returned tt).
Proof.
  destruct (guard inputs) eqn:Hg.
  { rewrite guarded_run by done. simpl. intros ->%no_new_calls.
    split; [by intros ?%elem_of_nil|]. by intros (? & ?%elem_of_nil & _). }
  rewrite submitValue_calls by done.
  run_try inputs ext amount
    ltac:(intros Hnew; read_new Hnew new;
          (split;
           [ intros Hin; repeat (apply elem_of_cons in Hin as [Hin|Hin]);
             try (by apply elem_of_nil in Hin); try discriminate;
             (eexists; split; [|eassumption]); set_solver
           | intros (tx' & Hin & Hw');
             repeat (apply elem_of_cons in Hin as [Hin|Hin]);
             try (by apply elem_of_nil in Hin); try discriminate;
             try (injection Hin as ->; congruence); set_solver ])).
Qed.


(** The callback of a later render differs only in the busy flag it
    closes over. *)
Lemma guard_rendered inputs s :
  guard (rendered inputs s) =
    busy s || negb (truthy (accounts inputs ≫= head)) || negb (hasContract inputs).
Proof. reflexivity. Qed.

Lemma submitValue_try_rendered inputs s ext label amount s0 :
  submitValue_try (rendered inputs s) ext label amount s0
  = submitValue_try inputs ext label amount s0.
Proof. reflexivity. Qed.


(** X17.  A finished submission, failed or not, does not block the next
    one: the callback of the render that follows it, which closes over
    the busy flag the submission left, has the guard open again with the
    same wallet and contract, and a call through it starts over with a
    new encryption. *)
Theorem submission_can_be_repeated inputs ext ext' label label' amount amount' s :
  guard inputs = false →
  guard (rendered inputs (submitValue inputs ext label amount s).2) = false ∧
  ∃ more,
    calls (submitValue (rendered inputs (submitValue inputs ext label amount s).2)
             ext' label' amount' (submitValue inputs ext label amount s).2).2
    = calls (submitValue inputs ext label amount s).2 ++ CallEncryptWith amount' :: more.
Proof.
  intros Hg.
  set (s1 := (submitValue inputs ext label amount s).2).
  assert (guard (rendered inputs s1) = false) as Hg'.
  { rewrite guard_rendered. unfold s1. rewrite submitValue_clears_busy by done.
    unfold guard in Hg. by apply orb_false_iff in Hg as [[_ ->]%orb_false_iff ->]. }
  split; [exact Hg'|].
  rewrite (submitValue_calls (rendered inputs s1) ext' label' amount' s1 Hg').
  rewrite submitValue_try_rendered.
  run_try inputs ext' amount'
    ltac:(eexists; rewrite <- ?(assoc_L (++)); simpl; reflexivity).
Qed.

End HookRuns.

(** * The page *)

Section RegexFacts.

Import Stdlib.Strings.Ascii.
Import Regex.

Implicit Types (r : regex) (s : string) (c : ascii).

Lemma append_nil_r s : s +:+ "" = s.
Proof. induction s as [|c s IH]; [done|]. unfold String.app in *; simpl. by rewrite IH. Qed.

Lemma append_assoc s1 s2 s3 : (s1 +:+ s2) +:+ s3 = s1 +:+ s2 +:+ s3.
Proof.
  induction s1 as [|c s1 IH]; [done|]. unfold String.app in *; simpl. by rewrite IH.
Qed.

Lemma append_eq_nil s1 s2 : s1 +:+ s2 = "" → s1 = "" ∧ s2 = "".
Proof. by destruct s1. Qed.

Lemma append_eq_cons s1 s2 c s :
  s1 +:+ s2 = String c s →
  (s1 = "" ∧ s2 = String c s) ∨ ∃ s1', s1 = String c s1' ∧ s = s1' +:+ s2.
Proof.
  destruct s1 as [|c' s1]; [by left|]. intros [= -> <-]. right. by exists s1.
Qed.

Lemma nullable_Matches r : nullable r = true ↔ Matches r "".
Proof.
  split.
  - induction r as [| |member|r1 IH1 r2 IH2|r1 IH1 r2 IH2|r IH]; simpl; try done.
    + intros _. constructor.
    + intros [H1 H2]%andb_true_iff. apply (MSeq r1 r2 "" ""); auto.
    + intros [H|H]%orb_true_iff; [apply MAltL|apply MAltR]; auto.
    + intros _. constructor.
  - intros H. remember EmptyString as s eqn:Hs.
    induction H as [|member c Hc|r1 r2 s1 s2 H1 IH1 H2 IH2|r1 r2 s H IH|r1 r2 s H IH
                   |r|r s1 s2 H1 IH1 H2 IH2]; simpl; try done.
    + apply append_eq_nil in Hs as [-> ->]. by rewrite IH1, IH2.
    + by rewrite IH.
    + rewrite IH by done. apply orb_true_r.
Qed.

Lemma deriv_sound c r s : Matches (deriv c r) s → Matches r (String c s).
Proof.
  revert s. induction r as [| |member|r1 IH1 r2 IH2|r1 IH1 r2 IH2|r IH];
    intros s; simpl.
  - inversion 1.
  - inversion 1.
  - destruct (member c) eqn:Hc; inversion 1; subst. by constructor.
  - destruct (nullable r1) eqn:Hn.
    + inversion 1 as [| | |? ? ? Hl|? ? ? Hr| |]; subst.
      * inversion Hl as [| |? ? s1 s2 H1 H2| | | |]; subst.
        apply (MSeq r1 r2 (String c s1) s2); auto.
      * apply (MSeq r1 r2 "" (String c s)); [by apply nullable_Matches|auto].
    + inversion 1 as [| |? ? s1 s2 H1 H2| | | |]; subst.
      apply (MSeq r1 r2 (String c s1) s2); auto.
  - inversion 1; subst; [apply MAltL|apply MAltR]; auto.
  - inversion 1 as [| |? ? s1 s2 H1 H2| | | |]; subst.
    apply (MStarMore r (String c s1) s2); auto.
Qed.

Lemma deriv_complete r s' :
  Matches r s' → ∀ c s, s' = String c s → Matches (deriv c r) s.
Proof.
  induction 1 as [|member c' Hc|r1 r2 s1 s2 H1 IH1 H2 IH2|r1 r2 s0 H IH|r1 r2 s0 H IH
                 |r|r s1 s2 H1 IH1 H2 IH2]; intros c s Hs; simpl.
  - done.
  - injection Hs as -> <-. rewrite Hc. constructor.
  - apply append_eq_cons in Hs as [[-> ->]|(s1' & -> & ->)].
    + apply nullable_Matches in H1 as ->. apply MAltR. by apply IH2.
    + destruct (nullable r1); [apply MAltL|]; apply MSeq; auto.
  - apply MAltL. by apply IH.
  - apply MAltR. by apply IH.
  - done.
  - apply append_eq_cons in Hs as [[-> ->]|(s1' & -> & ->)].
    + by apply IH2.
    + apply MSeq; auto.
Qed.

(** The derivative matcher decides the language of the expression. *)
Lemma test_Matches r s : test r s = true ↔ Matches r s.
Proof.
  revert r. induction s as [|c s IH]; intros r; simpl.
  - apply nullable_Matches.
  - rewrite IH. split; [apply deriv_sound|]. intros H. by eapply deriv_complete.
Qed.

Lemma isDot_eq c : isDot c = true → c = "."%char.
Proof. by destruct c as [[] [] [] [] [] [] [] []]. Qed.

Lemma isDigit_not_dot c : isDigit c = true → isDot c = false.
Proof. by destruct c as [[] [] [] [] [] [] [] []]. Qed.

Lemma digits_Matches s : Matches (Star (Class isDigit)) s ↔ allDigits s = true.
Proof.
  split.
  - intros H. remember (Star (Class isDigit)) as r eqn:Hr.
    induction H as [| | | | |r'|r' s1 s2 H1 _ H2 IH2]; try done.
    injection Hr as ->. inversion H1; subst. simpl.
    apply andb_true_iff. split; [done|]. by apply IH2.
  - induction s as [|c s IH]; simpl; [constructor|].
    intros [Hc Hs]%andb_true_iff.
    apply (MStarMore _ (String c "") s); [by constructor|auto].
Qed.

Lemma append_cons c s1 s2 : String c s1 +:+ s2 = String c (s1 +:+ s2).
Proof. reflexivity. Qed.

Lemma allPriceChars_app s1 s2 :
  allPriceChars (s1 +:+ s2) = allPriceChars s1 && allPriceChars s2.
Proof.
  induction s1 as [|c s1 IH]; [done|]. rewrite append_cons; simpl.
  by rewrite IH, andb_assoc.
Qed.

Lemma countDots_app s1 s2 : countDots (s1 +:+ s2) = countDots s1 + countDots s2.
Proof.
  induction s1 as [|c s1 IH]; [done|]. rewrite append_cons; simpl.
  rewrite IH. lia.
Qed.

Lemma allDigits_chars s : allDigits s = true → allPriceChars s = true ∧ countDots s = 0.
Proof.
  induction s as [|c s IH]; simpl; [done|].
  intros [Hc [-> ->]%IH]%andb_true_iff. by rewrite Hc, (isDigit_not_dot c Hc).
Qed.

Lemma chars_allDigits s : allPriceChars s = true → countDots s = 0 → allDigits s = true.
Proof.
  induction s as [|c s IH]; simpl; [done|].
  intros [Hc Hs]%andb_true_iff Hd. destruct (isDot c); [done|].
  rewrite orb_false_r in Hc. rewrite Hc. auto.
Qed.

(** The price expression matches a run of digits, an optional dot and a
    run of digits. *)
Lemma priceRegex_split s :
  test priceRegex s = true ↔
  ∃ whole frac, allDigits whole = true ∧ allDigits frac = true ∧
                (s = whole +:+ frac ∨ s = whole +:+ "." +:+ frac).
Proof.
  rewrite test_Matches. unfold priceRegex, Opt. split.
  - inversion 1 as [| |? ? whole rest Hw Hrest| | | |]; subst.
    inversion Hrest as [| |? ? dot frac Hdot Hf| | | |]; subst.
    apply digits_Matches in Hw, Hf. exists whole, frac. do 2 (split; [done|]).
    inversion Hdot as [| | |? ? ? Hc|? ? ? He| |]; subst.
    + inversion Hc as [|? c Hd| | | | |]; subst. apply isDot_eq in Hd as ->. by right.
    + inversion He; subst. by left.
  - intros (whole & frac & Hw%digits_Matches & Hf%digits_Matches & [->| ->]).
    + apply MSeq; [done|]. apply (MSeq _ _ "" frac); [|done]. apply MAltR. constructor.
    + apply MSeq; [done|]. apply (MSeq _ _ "." frac); [|done]. apply MAltL. by constructor.
Qed.

Lemma chars_split s :
  allPriceChars s = true → countDots s ≤ 1 →
  ∃ whole frac, allDigits whole = true ∧ allDigits frac = true ∧
                (s = whole +:+ frac ∨ s = whole +:+ "." +:+ frac).
Proof.
  induction s as [|c s IH]; simpl.
  - intros _ _. exists "", "". auto.
  - intros [Hc Hs]%andb_true_iff Hd. destruct (isDot c) eqn:Hdot.
    + apply isDot_eq in Hdot as ->.
      exists "", s. split; [done|]. split; [|by right].
      apply chars_allDigits; [done|lia].
    + rewrite orb_false_r in Hc.
      destruct (IH Hs) as (whole & frac & Hw & Hf & Heq); [simpl in Hd; lia|].
      exists (String c whole), frac. simpl. rewrite Hc, Hw. do 2 (split; [done|]).
      rewrite !append_cons. destruct Heq as [->| ->]; auto.
Qed.

Lemma priceRegex_chars s :
  test priceRegex s = true ↔ allPriceChars s = true ∧ countDots s ≤ 1.
Proof.
  rewrite priceRegex_split. split.
  - intros (whole & frac & [Hw Hwd]%allDigits_chars & [Hf Hfd]%allDigits_chars & [->| ->]);
      rewrite !allPriceChars_app, !countDots_app, Hw, Hf, Hwd, Hfd; simpl; split; [done|lia..].
  - intros [Hc Hd]. by apply chars_split.
Qed.

(** X18.  The price input accepts exactly the strings made of digits
    and at most one dot, that is a run of digits, then possibly a dot,
    then a run of digits: no sign, no exponent, no space, no second dot.
    The empty string and a lone dot are among the accepted ones. *)
Theorem price_input_accepts_digits_and_one_dot :
  (∀ s, test priceRegex s = true ↔ allPriceChars s = true ∧ countDots s ≤ 1) ∧
  (∀ s, test priceRegex s = true ↔
        ∃ whole frac, allDigits whole = true ∧ allDigits frac = true ∧
                      (s = whole +:+ frac ∨ s = whole +:+ "." +:+ frac)) ∧
  test priceRegex "" = true ∧
  test priceRegex "." = true.
Proof.
  split; [exact priceRegex_chars|]. split; [exact priceRegex_split|]. done.
Qed.

End RegexFacts.

Section PageFacts.

Import Hook Component.

Context {number Abi Runner Encrypted Params WriteContract Tx : Type}.

Local Abbreviation Inputs := (@Inputs Abi Runner).
Local Abbreviation Externals :=
  (@Externals number Abi Runner Encrypted Params WriteContract Tx).
Local Abbreviation Page := (@Page number Encrypted Params Tx).
Local Abbreviation Numbers := (@Numbers number).

Implicit Types (num : Numbers) (inputs : Inputs) (ext : Externals) (p : Page).


(** X19.  Typing anything but digits and one dot clears the price: the
    predicted price becomes [null], what was submitted before and the
    hook are left alone, and [handleSubmit] on the resulting page does
    nothing. *)
Theorem typing_anything_else_clears_price num inputs ext isDecrypting value p :
  Regex.allPriceChars value = false ∨ 2 ≤ Regex.countDots value →
  predictedPrice (onChange num value p) = None ∧
  submittedPrice (onChange num value p) = submittedPrice p ∧
  launchPrice (onChange num value p) = launchPrice p ∧
  handleSubmit num inputs ext isDecrypting (onChange num value p)
    = (Returned tt, onChange num value p).
Proof.
  intros Hbad.
  assert (Regex.test Regex.priceRegex value = false) as Htest.
  { apply not_true_is_false. intros [Hc Hd]%priceRegex_chars.
    destruct Hbad as [Hbad|Hbad]; [congruence|lia]. }
  unfold handleSubmit, onChange; simpl. by rewrite Htest.
Qed.

(** X20.  [handleSubmit] does nothing (no state changes, the hook is not
    called, nothing is encrypted or sent) when there is no price, when
    the price is a number that counts as false (zero or [NaN], so a guess
    of zero cannot be sent from the page), while the hook is busy, and
    while a decryption is running. *)
Theorem handleSubmit_blocked num inputs ext isDecrypting p :
  predictedPrice p = None ∨
  (∃ n, predictedPrice p = Some n ∧ toBoolean num n = false) ∨
  busy (launchPrice p) = true ∨
  isDecrypting = true →
  handleSubmit num inputs ext isDecrypting p = (Returned tt, p).
Proof.
  unfold handleSubmit.
  intros [Hp|[(n & Hp & Hn)|[Hb|Hd]]].
  - by rewrite Hp.
  - by rewrite Hp; simpl; rewrite Hn.
  - rewrite Hb. by rewrite orb_true_r.
  - rewrite Hd. by rewrite orb_true_r.
Qed.


(** X22.  In a runtime whose [BigInt] turns the empty string into zero,
    whenever the hook reports [valueDecrypted], the [clearValue] it
    returns is truthy, so the effect of the page fires: the predicted and
    the submitted price both become [Number] of the decrypted value. *)
Theorem decrypted_value_is_taken_over (StringToBigInt : string → Outcome Z)
    num encryptedHandle results p :
  StringToBigInt "" = Returned 0%Z →
  valueDecrypted StringToBigInt encryptedHandle results = Returned true →
  ∃ h val,
    clearValue encryptedHandle results = Some (h, val) ∧
    truthyClear (Some val) = true ∧
    onDecrypted num true (Some val) p =
      {| predictedPrice := Some (NumberOfClear num (Some val));
         submittedPrice := Some (NumberOfClear num (Some val));
         launchPrice := launchPrice p;
         console := console p |}.
Proof.
  intros Hempty.
  destruct encryptedHandle as [h|], results as [cache|]; simpl; try done.
  case_bool_decide; [done|].
  destruct (cache !! h) as [val|]; [|done].
  destruct (BigInt StringToBigInt val) as [n|?] eqn:Hn; [|done].
  intros [= Hnz%bool_decide_eq_true]. exists h, val. split; [done|].
  assert (truthyClear (Some val) = true) as Ht.
  { destruct val as [m|b|str]; simpl in *.
    - injection Hn as ->. by apply bool_decide_eq_true.
    - injection Hn as <-. by destruct b.
    - apply negb_true_iff, bool_decide_eq_false. intros ->. congruence. }
  split; [exact Ht|]. unfold onDecrypted. by rewrite Ht.
Qed.

End PageFacts.

(** * The further theorems at the example world *)

Section MoreContractWitnesses.

Import Contract Examples.
Local Open Scope N_scope.

(** Dana's guess leaves charlie's record alone. *)
Lemma other_senders_leave_record_witness :
  msg_sender (dana_at 20, SubmitPriceGuess 3200 proof).1 ≠ charlie ∧
  view (hasSubmitted charlie)
    (step mock_fhe launchPrice guessed (dana_at 20, SubmitPriceGuess 3200 proof))
    = view (hasSubmitted charlie) guessed ∧
  view (encryptedGuessOf charlie)
    (step mock_fhe launchPrice guessed (dana_at 20, SubmitPriceGuess 3200 proof))
    = view (encryptedGuessOf charlie) guessed ∧
  view (lastGuessTimestamp charlie)
    (step mock_fhe launchPrice guessed (dana_at 20, SubmitPriceGuess 3200 proof))
    = view (lastGuessTimestamp charlie) guessed.
Proof.
  assert (msg_sender (dana_at 20, SubmitPriceGuess 3200 proof).1 ≠ charlie) as Hne
    by discriminate.
  split; [exact Hne|].
  exact (other_senders_leave_record mock_fhe launchPrice guessed
           (dana_at 20, SubmitPriceGuess 3200 proof) charlie Hne).
Defined.

(** After charlie's and dana's guesses charlie still decrypts 2500. *)
Lemma submitter_can_always_decrypt_witness :
  view (hasSubmitted charlie)
    (run mock_fhe launchPrice genesis
       [(charlie_at 10, SubmitPriceGuess 2500 proof);
        (dana_at 20, SubmitPriceGuess 3200 proof)]) = Ok true ∧
  ∃ h, view (encryptedGuessOf charlie)
         (run mock_fhe launchPrice genesis
            [(charlie_at 10, SubmitPriceGuess 2500 proof);
             (dana_at 20, SubmitPriceGuess 3200 proof)]) = Ok h ∧
       userDecrypt mock_fhe
         (run mock_fhe launchPrice genesis
            [(charlie_at 10, SubmitPriceGuess 2500 proof);
             (dana_at 20, SubmitPriceGuess 3200 proof)]) h charlie
         = Some (cleartext mock_fhe h) ∧
       (h, launchPrice) ∈
         acl (run mock_fhe launchPrice genesis
                [(charlie_at 10, SubmitPriceGuess 2500 proof);
                 (dana_at 20, SubmitPriceGuess 3200 proof)]).
Proof.
  assert (view (hasSubmitted charlie)
            (run mock_fhe launchPrice genesis
               [(charlie_at 10, SubmitPriceGuess 2500 proof);
                (dana_at 20, SubmitPriceGuess 3200 proof)]) = Ok true) as Hflag
    by (vm_compute; reflexivity).
  split; [exact Hflag|].
  exact (submitter_can_always_decrypt mock_fhe launchPrice
           [(charlie_at 10, SubmitPriceGuess 2500 proof);
            (dana_at 20, SubmitPriceGuess 3200 proof)] charlie Hflag).
Defined.

(** Charlie grants dana, who then decrypts charlie's 2500. *)
Lemma grantee_decrypts_like_submitter_witness :
  view (hasSubmitted (msg_sender (charlie_at 20)))
    (run mock_fhe launchPrice genesis [(charlie_at 10, SubmitPriceGuess 2500 proof)])
    = Ok true ∧
  ∃ h, view (encryptedGuessOf charlie)
         (step mock_fhe launchPrice
            (run mock_fhe launchPrice genesis
               [(charlie_at 10, SubmitPriceGuess 2500 proof)])
            (charlie_at 20, AllowDecryption dana)) = Ok h ∧
       userDecrypt mock_fhe
         (step mock_fhe launchPrice
            (run mock_fhe launchPrice genesis
               [(charlie_at 10, SubmitPriceGuess 2500 proof)])
            (charlie_at 20, AllowDecryption dana)) h dana
         = Some (cleartext mock_fhe h) ∧
       userDecrypt mock_fhe
         (step mock_fhe launchPrice
            (run mock_fhe launchPrice genesis
               [(charlie_at 10, SubmitPriceGuess 2500 proof)])
            (charlie_at 20, AllowDecryption dana)) h charlie
         = Some (cleartext mock_fhe h).
Proof.
  assert (view (hasSubmitted (msg_sender (charlie_at 20)))
            (run mock_fhe launchPrice genesis
               [(charlie_at 10, SubmitPriceGuess 2500 proof)]) = Ok true) as Hflag
    by (vm_compute; reflexivity).
  split; [exact Hflag|].
  exact (grantee_decrypts_like_submitter mock_fhe launchPrice
           [(charlie_at 10, SubmitPriceGuess 2500 proof)] (charlie_at 20) dana Hflag).
Defined.

(** Charlie grants dana, then submits 2700: dana cannot read the new guess. *)
Lemma grant_does_not_follow_resubmission_witness :
  view (hasSubmitted (msg_sender (charlie_at 20))) guessed = Ok true ∧
  verifyInput mock_fhe launchPrice (msg_sender (charlie_at 30)) 2700 proof = Some 2700 ∧
  ((2700, dana) ∉
    acl (step mock_fhe launchPrice guessed (charlie_at 20, AllowDecryption dana))) ∧
  userDecrypt mock_fhe
    (step mock_fhe launchPrice
       (step mock_fhe launchPrice guessed (charlie_at 20, AllowDecryption dana))
       (charlie_at 30, SubmitPriceGuess 2700 proof)) 2700 dana = None.
Proof.
  assert (view (hasSubmitted (msg_sender (charlie_at 20))) guessed = Ok true) as Hflag
    by (vm_compute; reflexivity).
  assert ((2700, dana) ∉
            acl (step mock_fhe launchPrice guessed (charlie_at 20, AllowDecryption dana)))
    as Hfresh by compute_done.
  split; [exact Hflag|]. split; [reflexivity|]. split; [exact Hfresh|].
  assert (dana ≠ msg_sender (charlie_at 20)) as Hne by discriminate.
  assert (dana ≠ launchPrice) as Hthis by discriminate.
  exact (proj1 (proj2 (grant_does_not_follow_resubmission mock_fhe launchPrice guessed
                         (charlie_at 20) dana (charlie_at 30) 2700 proof 2700
                         eq_refl Hflag eq_refl Hne Hthis Hfresh))).
Defined.

End MoreContractWitnesses.

Section MoreHookWitnesses.

Import Hook Component Examples.
Local Open Scope N_scope.


(** The transaction of that submission carries the encrypted 2500. *)
Lemma transaction_sent_only_after_encryption_witness :
  calls (submitValue connected working "ZamaLaunch" 2500 idle).2 =
    calls idle ++ [CallEncryptWith 2500; CallNewContract; CallBuildParams 2500;
                   CallSubmitPriceGuess 2500 300000; CallWait 2500; CallReloadValue] ∧
  CallSubmitPriceGuess 2500 300000 ∈
    [CallEncryptWith 2500; CallNewContract; CallBuildParams 2500;
     CallSubmitPriceGuess 2500 300000; CallWait 2500; CallReloadValue] ∧
  ∃ encrypted info signer writeContract,
    encryptWith working 2500 = Returned (Some encrypted) ∧
    contractInfo connected = Some info ∧
    ethersSigner connected = Some signer ∧
    newContract working (address info) (abi info) signer = Returned writeContract ∧
    buildParamsFromAbi working encrypted (abi info) "submitPriceGuess" = Returned 2500.
Proof.
  assert (CallSubmitPriceGuess 2500 300000 ∈
            [CallEncryptWith (number:=N) (Encrypted:=N) (Params:=N) (Tx:=N) 2500;
             CallNewContract; CallBuildParams 2500;
             CallSubmitPriceGuess 2500 300000; CallWait 2500; CallReloadValue])
    as Hin by (repeat (apply elem_of_cons; first [left; reflexivity | right])).
  split; [reflexivity|]. split; [exact Hin|].
  exact (proj2 (transaction_sent_only_after_encryption connected working "ZamaLaunch"
                  2500 idle _ 2500 300000 eq_refl Hin)).
Defined.

(** With a rejecting wallet nothing is awaited and nothing is fetched again. *)
Lemma reload_exactly_after_confirmation_witness :
  calls (submitValue connected rejecting "ZamaLaunch" 2500 idle).2 =
    calls idle ++ [CallEncryptWith 2500; CallNewContract; CallBuildParams 2500;
                   CallSubmitPriceGuess 2500 300000] ∧
  (CallReloadValue ∈
     [CallEncryptWith (number:=N) (Encrypted:=N) (Params:=N) (Tx:=N) 2500;
      CallNewContract; CallBuildParams 2500; CallSubmitPriceGuess 2500 300000]
   ↔ ∃ tx, CallWait tx ∈
             [CallEncryptWith (number:=N) (Encrypted:=N) (Params:=N) (Tx:=N) 2500;
              CallNewContract; CallBuildParams 2500; CallSubmitPriceGuess 2500 300000]
           ∧ wait rejecting tx = Returned tt).
Proof.
  split; [reflexivity|].
  exact (reload_exactly_after_confirmation connected rejecting "ZamaLaunch" 2500 idle
           _ eq_refl).
Defined.


(** After the rejected submission the next one starts with an encryption. *)
Lemma submission_can_be_repeated_witness :
  guard connected = false ∧
  guard (rendered connected
           (submitValue connected rejecting "ZamaLaunch" 2500 idle).2) = false ∧
  ∃ more,
    calls (submitValue
             (rendered connected (submitValue connected rejecting "ZamaLaunch" 2500 idle).2)
             working "ZamaLaunch" 2700
             (submitValue connected rejecting "ZamaLaunch" 2500 idle).2).2
    = calls (submitValue connected rejecting "ZamaLaunch" 2500 idle).2
        ++ CallEncryptWith 2700 :: more.
Proof.
  split; [reflexivity|].
  exact (submission_can_be_repeated connected rejecting working "ZamaLaunch" "ZamaLaunch"
           2500 2700 idle eq_refl).
Defined.

(** Typing a minus sign clears the price. *)
Lemma typing_anything_else_clears_price_witness :
  Regex.allPriceChars "-5" = false ∧
  predictedPrice (onChange naturals "-5" typed) = None ∧
  handleSubmit naturals connected working false (onChange naturals "-5" typed)
    = (Returned tt, onChange naturals "-5" typed).
Proof.
  split; [reflexivity|].
  destruct (typing_anything_else_clears_price naturals connected working false "-5" typed
              (or_introl eq_refl)) as (Hp & _ & _ & Hs).
  split; [exact Hp|exact Hs].
Defined.

(** A price of zero is not submitted. *)
Lemma handleSubmit_blocked_witness :
  toBoolean naturals 0 = false ∧
  handleSubmit naturals connected working false
    {| predictedPrice := Some 0; submittedPrice := None;
       Component.launchPrice := idle; console := [] |}
  = (Returned tt,
     {| predictedPrice := Some 0; submittedPrice := None;
        Component.launchPrice := idle; console := [] |}).
Proof.
  split; [reflexivity|].
  apply (handleSubmit_blocked naturals connected working false).
  right. left. exists 0. split; reflexivity.
Defined.


(** A decrypted 2500 becomes the predicted and the submitted price. *)
Lemma decrypted_value_is_taken_over_witness :
  parse_empty "" = Returned 0%Z ∧
  valueDecrypted parse_empty (Some handle_2500)
    (Some {[ handle_2500 := CBigInt 2500 ]}) = Returned true ∧
  ∃ h val,
    clearValue (Some handle_2500) (Some {[ handle_2500 := CBigInt 2500 ]}) = Some (h, val) ∧
    truthyClear (Some val) = true ∧
    onDecrypted naturals true (Some val) typed =
      {| predictedPrice := Some (NumberOfClear naturals (Some val));
         submittedPrice := Some (NumberOfClear naturals (Some val));
         Component.launchPrice := Component.launchPrice typed;
         console := console typed |}.
Proof.
  split; [reflexivity|]. split; [reflexivity|].
  exact (decrypted_value_is_taken_over parse_empty naturals (Some handle_2500)
           (Some {[ handle_2500 := CBigInt 2500 ]}) typed eq_refl eq_refl).
Defined.

End MoreHookWitnesses.

(** * The hook against the contract *)

Section ProxyFacts.

Import Contract.
Context (fhe : FHEVM) (this : address).

Lemma last_submission_verified a txs h t :
  last_submission fhe this a txs = Some (h, t) →
  ∃ e p, verifyInput fhe this a e p = Some h.
Proof.
  unfold last_submission. intros Hl%last_Some_elem_of.
  apply list_elem_of_omap in Hl as ([env call] & _ & Hs).
  unfold submission_of in Hs; simpl in Hs.
  destruct call as [e p| | | |]; try done.
  case_decide; [|done].
  destruct (verifyInput fhe this a e p) as [h'|] eqn:Hv; [|done].
  injection Hs as -> _. by exists e, p.
Qed.

Lemma client_hasSubmitted_66 h :
  String.length h = 66 → Hook.hasSubmitted (Some h) = bool_decide (h ≠ Hook.ZeroHash).
Proof.
  intros Hlen. unfold Hook.hasSubmitted.
  rewrite bool_decide_false by (intros ->; discriminate).
  rewrite (bool_decide_true (h ≠ "0x0")) by (intros ->; discriminate).
  apply andb_true_r.
Qed.

(** X23.  The client's [hasSubmitted] is a faithful stand-in for the
    flag on the chain.  Let the read of [encryptedGuessOf] render a
    handle as a string of 66 characters, the zero handle as
    [ethers.ZeroHash], and no handle that the verifier returns as
    [ethers.ZeroHash].  Then, after any sequence of transactions on the
    deployed contract, the [hasSubmitted] that the hook derives from the
    stored handle of an address equals the contract's [hasSubmitted] of
    that address. *)
Theorem client_flag_agrees_with_chain (showHandle : euint32 → string) txs a :
  (∀ h, String.length (showHandle h) = 66) →
  showHandle 0%N = Hook.ZeroHash →
  (∀ sender e p h, verifyInput fhe this sender e p = Some h →
                   showHandle h ≠ Hook.ZeroHash) →
  ∃ h flag,
    view (encryptedGuessOf a) (run fhe this genesis txs) = Ok h ∧
    view (hasSubmitted a) (run fhe this genesis txs) = Ok flag ∧
    Hook.hasSubmitted (Some (showHandle h)) = flag.
Proof.
  intros Hlen Hzero Hnz.
  rewrite view_encryptedGuessOf, view_hasSubmitted.
  do 2 eexists. do 2 (split; [reflexivity|]).
  rewrite client_hasSubmitted_66 by done.
  pose proof (guessRecord_run fhe this genesis txs a) as Hr. unfold guessRecord in Hr at 1.
  destruct (last_submission fhe this a txs) as [[h t]|] eqn:Hl.
  - injection Hr as -> -> _.
    apply last_submission_verified in Hl as (e & p & Hv).
    apply bool_decide_true. by eapply Hnz.
  - unfold guessRecord in Hr; simpl in Hr. injection Hr as -> -> _.
    by apply bool_decide_false; intros [].
Qed.

End ProxyFacts.

Section ProxyWitness.

Import Contract Examples.
Local Open Scope N_scope.

(** With the mock verifier and guesses above zero, the hook sees that
    charlie has submitted and that dana has not. *)
Lemma client_flag_agrees_with_chain_witness :
  (∀ h, String.length (show_handle h) = 66%nat) ∧
  show_handle 0 = Hook.ZeroHash ∧
  Hook.hasSubmitted (Some (show_handle 2500)) = true ∧
  ∃ h flag,
    view (encryptedGuessOf dana)
      (run nonzero_fhe
         launchPrice genesis [(charlie_at 10, SubmitPriceGuess 2500 proof)]) = Ok h ∧
    view (hasSubmitted dana)
      (run nonzero_fhe
         launchPrice genesis [(charlie_at 10, SubmitPriceGuess 2500 proof)]) = Ok flag ∧
    Hook.hasSubmitted (Some (show_handle h)) = flag.
Proof.
  assert (∀ h, String.length (show_handle h) = 66%nat) as Hlen
    by (intros h; unfold show_handle; by case_decide).
  split; [exact Hlen|]. split; [reflexivity|]. split; [reflexivity|].
  apply (client_flag_agrees_with_chain
           nonzero_fhe
           launchPrice show_handle
           [(charlie_at 10, SubmitPriceGuess 2500 proof)] dana Hlen eq_refl).
  intros sender e p h; simpl. destruct p; [done|]. intros [= <-].
  unfold show_handle. rewrite decide_False by lia. discriminate.
Defined.

End ProxyWitness.
